(** * Equilibrium lesson: finder and classifier

    A shallow embedding of [scripts/equilibrium_lesson.py]: the three scalar
    functions, [find_equilibrium_points], [classify_equilibrium] and the
    marks [create_visualization] draws at each equilibrium point; then the
    lines [print_analysis] prints and the calls [main] makes.

    Numbers: the script computes with floats; here a position is a real
    number (the data model's own reading: "position (real number)"), so
    [x**n] is [x ^ n] on [R] and the literals [0.1] and [1e-6] are the
    decimal fractions they write.  Rounding, overflow and NaN are outside
    this model; the one place where the script can fail on a float, the
    square in [classify_equilibrium], has a second model on binary64 floats.

    Effects: [scipy.optimize.fsolve] is library code.  It is a parameter of
    the development: a call may return an array or raise, and may read and
    change an ambient state [World].  The bare [try: ... except: pass] of
    the finder is modelled with an exception-and-state monad. *)

From Stdlib Require Import Floats.
From Stdlib Require Import Reals Lra Lia List String Ascii Bool.
From Stdlib Require Import Sorted Permutation.
Import ListNotations.

Local Open Scope R_scope.

(** ** Scalar functions (lines 19-47) *)

Definition potential_energy (x : R) : R := x ^ 4 - 4 * x ^ 2 + x.

Definition force (x : R) : R := - 4 * x ^ 3 + 8 * x - 1.

Definition second_derivative (x : R) : R := 12 * x ^ 2 - 8.

(** Python's [a < b] and [a > b] on numbers, as booleans. *)

Definition Rltb (a b : R) : bool := if Rlt_dec a b then true else false.

Definition Rgtb (a b : R) : bool := if Rgt_dec a b then true else false.

(** ** classify_equilibrium (lines 69-80) *)

Definition classify_equilibrium (x_eq : R) : string * R :=
  let d2U := second_derivative x_eq in
  if Rgtb d2U 0 then ("stable"%string, d2U)
  else if Rltb d2U 0 then ("unstable"%string, d2U)
  else ("neutral"%string, d2U).

(** ** Exceptions and ambient state

    A Python call either returns a value or raises; [W] is whatever state
    the call can see and change. *)

Definition exn : Type := string.

Inductive result (A : Type) : Type :=
| Returned (a : A)
| Raised (e : exn).

Arguments Returned {A} a.
Arguments Raised {A} e.

(** ** classify_equilibrium on Python floats

    The same function on binary64 floats, for a position given as a Python
    [float].  [x**2] on a float raises OverflowError when the operand is
    finite and the result is not; the square is taken as the correctly
    rounded product.  Multiplying by 12 and subtracting 8 never raise, and
    comparisons with NaN are false. *)




(** ** Calls that see a state *)

Definition M (W A : Type) : Type := W -> result A * W.

Definition ret {W A : Type} (a : A) : M W A := fun w => (Returned a, w).

Definition raise {W A : Type} (e : exn) : M W A := fun w => (Raised e, w).

Definition bind {W A B : Type} (c : M W A) (k : A -> M W B) : M W B :=
  fun w =>
    match c w with
    | (Returned a, w') => k a w'
    | (Raised e, w') => (Raised e, w')
    end.

(** [try: body / except: handler] with a bare [except], which catches
    every exception. *)
Definition try_except {W A : Type} (body handler : M W A) : M W A :=
  fun w =>
    match body w with
    | (Returned a, w') => (Returned a, w')
    | (Raised _, w') => handler w'
    end.

Notation "x <- c ;; k" := (bind c (fun x => k))
  (at level 61, c at next level, right associativity).

(** [a[0]] on a sequence. *)
Definition getitem0 {W : Type} (a : list R) : M W R :=
  match a with
  | x :: _ => ret x
  | [] => raise "IndexError"%string
  end.

(** ** sorted

    [sorted] on a list of numbers.  CPython sorts a short list by insertion,
    comparing with [<] only. *)

Fixpoint insert (x : R) (l : list R) : list R :=
  match l with
  | [] => [x]
  | y :: l' => if Rltb y x then y :: insert x l' else x :: y :: l'
  end.

Fixpoint sorted (l : list R) : list R :=
  match l with
  | [] => []
  | x :: l' => insert x (sorted l')
  end.

(** ** find_equilibrium_points (lines 50-66) *)

Section Finder.

Variable World : Type.

(** [fsolve(func, x0)]: the array it returns, or the exception it raises. *)
Variable fsolve : (R -> R) -> R -> M World (list R).

(** [all(abs(x_eq - x_existing) > 0.1 for x_existing in equilibrium_points)] *)
Definition is_new (x_eq : R) (equilibrium_points : list R) : bool :=
  forallb (fun x_existing => Rgtb (Rabs (x_eq - x_existing)) 0.1)
          equilibrium_points.

(** The [try] block of one iteration: the list after the block. *)
Definition try_block (equilibrium_points : list R) (x_guess : R)
  : M World (list R) :=
  a <- fsolve force x_guess ;;
  x_eq <- getitem0 a ;;
  if is_new x_eq equilibrium_points && Rltb (Rabs (force x_eq)) 1e-6
  then ret (equilibrium_points ++ [x_eq])
  else ret equilibrium_points.

(** One iteration of the [for] loop: [try: ... except: pass]. *)
Definition loop_body (equilibrium_points : list R) (x_guess : R)
  : M World (list R) :=
  try_except (try_block equilibrium_points x_guess) (ret equilibrium_points).

Fixpoint for_each (guesses : list R) (equilibrium_points : list R)
  : M World (list R) :=
  match guesses with
  | [] => ret equilibrium_points
  | x_guess :: rest =>
      pts <- loop_body equilibrium_points x_guess ;;
      for_each rest pts
  end.

Definition find_equilibrium_points : M World (list R) :=
  equilibrium_points <- for_each [-2; 0; 2] [] ;;
  ret (sorted equilibrium_points).

End Finder.

Arguments find_equilibrium_points {World} fsolve.
Arguments for_each {World} fsolve.
Arguments loop_body {World} fsolve.
Arguments try_block {World} fsolve.

(** ** Predicates used in the statements *)

(** Two positions more than 0.1 apart. *)
Definition far (a b : R) : Prop := Rabs (a - b) > 0.1.

(** The list after a candidate [x_eq] has been tested against [pts]: the
    [if] of line 61. *)
Definition tested (pts : list R) (x_eq : R) : list R :=
  if is_new x_eq pts && Rltb (Rabs (force x_eq)) 1e-6
  then pts ++ [x_eq] else pts.

(** What every iteration keeps true of the list. *)
Definition accepted (pts : list R) : Prop :=
  Forall (fun x => Rabs (force x) < 1e-6) pts /\ ForallOrdPairs far pts.

(** ** create_visualization: the marks drawn per equilibrium point
    (lines 106-113, 125-135, 148-176)

    Each matplotlib call of the three loops is recorded with the arguments
    the script passes.  The curves, grids and titles do not depend on the
    equilibrium points and are left out. *)

Inductive axes : Type := ax1 | ax2 | ax3.

Record arrowprops : Type := mk_arrowprops
  { arrowstyle : string; arrow_color : string; lw : R }.

Record bbox : Type := mk_bbox
  { boxstyle : string; facecolor : string; bbox_alpha : R }.

Inductive artist : Type :=
| Plot (ax : axes) (x y : R) (fmt : string) (color : string)
       (markersize : R) (label : option string)
| Annotate (ax : axes) (text : string) (xy xytext : R * R) (fontsize : R)
           (ha : string) (box : option bbox) (arrow : arrowprops)
| Circle (ax : axes) (centre : R * R) (radius : R) (color : string)
         (alpha : R) (zorder : R).

(** [str.capitalize] on ASCII text: the first character in upper case, the
    rest in lower case. *)

Definition upper_ascii (c : ascii) : ascii :=
  let n := nat_of_ascii c in
  if ((97 <=? n) && (n <=? 122))%nat then ascii_of_nat (n - 32) else c.

Definition lower_ascii (c : ascii) : ascii :=
  let n := nat_of_ascii c in
  if ((65 <=? n) && (n <=? 90))%nat then ascii_of_nat (n + 32) else c.

Fixpoint lower (s : string) : string :=
  match s with
  | EmptyString => EmptyString
  | String c s' => String (lower_ascii c) (lower s')
  end.

Definition capitalize (s : string) : string :=
  match s with
  | EmptyString => EmptyString
  | String c s' => String (upper_ascii c) (lower s')
  end.

Definition newline : string := String (ascii_of_nat 10) EmptyString.

Section Visualization.

Local Open Scope string_scope.

(** [f'{x:.2f}']: Python's fixed-point formatting of a number. *)
Variable format_2f : R -> string.

(** Lines 109-113, after [stability, d2U = classify_equilibrium(x_eq)]. *)
Definition potential_marker (stability : string) (x_eq : R) : artist :=
  let color := if (stability =? "stable") then "green" else "red" in
  let marker := if (stability =? "stable") then "v" else "^" in
  let label := capitalize stability ++ ": x=" ++ format_2f x_eq in
  Plot ax1 x_eq (potential_energy x_eq) marker color 15 (Some label).

(** Lines 128-135. *)
Definition force_marker (stability : string) (x_eq : R) : list artist :=
  let color := if (stability =? "stable") then "green" else "red" in
  [ Plot ax2 x_eq 0 "o" color 12 None;
    Annotate ax2 ("x=" ++ format_2f x_eq) (x_eq, 0) (x_eq, 0.5) 9 "center"
             None (mk_arrowprops "->" color 1.5) ].

(** Lines 151-176. *)
Definition ball_marker (stability : string) (x_eq : R) : list artist :=
  let U_eq := potential_energy x_eq in
  if (stability =? "stable") then
    [ Circle ax3 (x_eq, U_eq - 0.3) 0.15 "green" 0.8 5;
      Annotate ax3 ("STABLE" ++ newline ++ "(returns to equilibrium)")
               (x_eq, U_eq - 0.3) (x_eq, U_eq - 2) 9 "center"
               (Some (mk_bbox "round,pad=0.5" "lightgreen" 0.7))
               (mk_arrowprops "->" "green" 2) ]
  else
    [ Circle ax3 (x_eq, U_eq + 0.3) 0.15 "red" 0.8 5;
      Annotate ax3 ("UNSTABLE" ++ newline ++ "(moves away)")
               (x_eq, U_eq + 0.3) (x_eq, U_eq + 1.5) 9 "center"
               (Some (mk_bbox "round,pad=0.5" "lightcoral" 0.7))
               (mk_arrowprops "->" "red" 2) ].

(** The bodies of the three [for x_eq in eq_points] loops. *)

Definition mark_potential (x_eq : R) : list artist :=
  let '(stability, d2U) := classify_equilibrium x_eq in
  [potential_marker stability x_eq].

Definition mark_force (x_eq : R) : list artist :=
  let '(stability, d2U) := classify_equilibrium x_eq in
  force_marker stability x_eq.

Definition mark_ball (x_eq : R) : list artist :=
  let '(stability, d2U) := classify_equilibrium x_eq in
  ball_marker stability x_eq.

Variable World : Type.
Variable fsolve : (R -> R) -> R -> M World (list R).

(** [create_visualization]: the marks drawn, in drawing order, and
    [eq_points]. *)
Definition create_visualization : M World (list artist * list R) :=
  eq_points <- find_equilibrium_points fsolve ;;
  ret ((flat_map mark_potential eq_points
        ++ flat_map mark_force eq_points
        ++ flat_map mark_ball eq_points)%list,
       eq_points).

End Visualization.

(** ** Two concrete solvers, for the examples *)

(** A solver that answers from a table of nine-digit roots and counts its
    calls in the state. *)
Definition table_fsolve (func : R -> R) (x0 : R) : M nat (list R) :=
  fun calls =>
    (Returned [ if Rltb x0 (-1) then -1.472997601
                else if Rltb x0 1 then 0.126000193
                else 1.346997409 ],
     S calls).

(** The same solver, except that it raises when started between -1 and 1. *)
Definition flaky_fsolve (func : R -> R) (x0 : R) : M nat (list R) :=
  fun calls =>
    if Rltb (-1) x0 && Rltb x0 1
    then (Raised "RuntimeError"%string, S calls)
    else table_fsolve func x0 calls.

(** Equality test on positions, and a solver that raises exactly when
    started at -2, 0 or 2 and answers from the table otherwise. *)
Definition Reqb (a b : R) : bool := negb (Rltb a b) && negb (Rltb b a).

Definition seeds_failing_fsolve (func : R -> R) (x0 : R) : M nat (list R) :=
  fun calls =>
    if Reqb x0 (-2) || Reqb x0 0 || Reqb x0 2
    then (Raised "RuntimeError"%string, S calls)
    else table_fsolve func x0 calls.

(** * The rest of the script: report, window, main *)

(** ** Sequencing a statement whose value is not used *)

Notation "c ;; k" := (bind c (fun _ => k))
  (at level 61, right associativity).

(** ** Text

    A Python [str] is held as its UTF-8 bytes.  [len] counts characters
    (code points): every byte that is not a continuation byte.  [s * n] is
    [str_mul s n]; the format specification [<15] is [ljust _ 15]: pad on
    the right with spaces up to the width, never truncate.  [upper] is
    [str.upper] on ASCII text (the labels are ASCII). *)

Definition is_continuation (c : ascii) : bool :=
  let n := nat_of_ascii c in ((128 <=? n) && (n <? 192))%nat.

Fixpoint len (s : string) : nat :=
  match s with
  | EmptyString => 0
  | String c s' => if is_continuation c then len s' else S (len s')
  end.

Fixpoint str_mul (s : string) (n : nat) : string :=
  match n with
  | O => EmptyString
  | S n' => (s ++ str_mul s n')%string
  end.

Definition ljust (s : string) (width : nat) : string :=
  (s ++ str_mul " " (width - len s))%string.

Fixpoint upper (s : string) : string :=
  match s with
  | EmptyString => EmptyString
  | String c s' => String (upper_ascii c) (upper s')
  end.

(** ** print_analysis (lines 183-209)

    The argument of each [print] call, in order: eight before the loop, one
    row per equilibrium point, eleven after it. *)

Section Report.

Local Open Scope string_scope.

(** [f'{x:.4f}']: Python's fixed-point formatting of a number. *)
Variable format_4f : R -> string.

Definition header_lines : list string :=
  [ newline ++ str_mul "=" 70;
    "EQUILIBRIUM ANALYSIS";
    str_mul "=" 70;
    newline ++ "Potential Energy Function: U(x) = x⁴ - 4x² + x";
    "Force: F(x) = -dU/dx = -4x³ + 8x - 1";
    newline ++ str_mul "-" 70;
    ljust "Position" 15 ++ " " ++ ljust "U(x)" 15 ++ " "
      ++ ljust "Stability" 15 ++ " " ++ ljust "d²U/dx²" 15;
    str_mul "-" 70 ].

Definition analysis_row (x_eq : R) : string :=
  let U_eq := potential_energy x_eq in
  let '(stability, d2U) := classify_equilibrium x_eq in
  ljust (format_4f x_eq) 15 ++ " " ++ ljust (format_4f U_eq) 15 ++ " "
    ++ ljust (upper stability) 15 ++ " " ++ ljust (format_4f d2U) 15.

Definition footer_lines : list string :=
  [ str_mul "-" 70;
    newline ++ "Physical Interpretation:";
    "• STABLE equilibrium (d²U/dx² > 0):";
    "  - Potential energy is at a local minimum";
    "  - Small displacements result in restoring forces";
    "  - System returns to equilibrium (like a ball in a valley)";
    newline ++ "• UNSTABLE equilibrium (d²U/dx² < 0):";
    "  - Potential energy is at a local maximum";
    "  - Small displacements result in forces pushing away";
    "  - System moves away from equilibrium (like a ball on a hilltop)";
    str_mul "=" 70 ++ newline ].

Definition print_analysis_lines (eq_points : list R) : list string :=
  (header_lines ++ map analysis_row eq_points ++ footer_lines)%list.

End Report.

(** ** main (lines 212-238)

    [print], [plt.savefig(fname, dpi=..., bbox_inches=...)] and [plt.show()]
    are external calls, parameters like [fsolve]. *)

Section Main.

Local Open Scope string_scope.

Variable World : Type.
Variable fsolve : (R -> R) -> R -> M World (list R).
Variable print : string -> M World unit.
Variable savefig : string -> R -> string -> M World unit.
Variable show : M World unit.
Variable format_2f : R -> string.
Variable format_4f : R -> string.

Fixpoint print_all (lines : list string) : M World unit :=
  match lines with
  | [] => ret tt
  | s :: rest => print s ;; print_all rest
  end.

Definition print_analysis (eq_points : list R) : M World unit :=
  print_all (print_analysis_lines format_4f eq_points).

Definition main : M World unit :=
  print (newline ++ str_mul "=" 70) ;;
  print "PHYSICS LESSON: STABLE AND UNSTABLE EQUILIBRIUM" ;;
  print (str_mul "=" 70) ;;
  eq_points <- find_equilibrium_points fsolve ;;
  print_analysis eq_points ;;
  fig_and_points <- create_visualization format_2f World fsolve ;;
  let output_file := "equilibrium_lesson_output.png" in
  savefig output_file 300 "tight" ;;
  print ("Visualization saved as: " ++ output_file) ;;
  show ;;
  print (newline ++ "Lesson complete! The visualization shows:") ;;
  print "1. Top panel: Potential energy curve with equilibrium points marked" ;;
  print "2. Middle panel: Force curve showing where F=0 (equilibrium)" ;;
  print "3. Bottom panel: Physical interpretation with ball analogy".

End Main.

(** ** The state after the finder's solver calls *)

Section SolverCalls.

Variable World : Type.
Variable fsolve : (R -> R) -> R -> M World (list R).

(** The state after calling the solver on [force] once per seed, in order. *)
Definition solver_states (guesses : list R) (w : World) : World :=
  fold_left (fun w0 x_guess => snd (fsolve force x_guess w0)) guesses w.

End SolverCalls.

(** ** The plotted window (lines 86 and 146)

    [np.linspace(start, stop, num)]: [num] evenly spaced samples from
    [start] to [stop], both included.  [x_grid] is the [x] of line 86, over
    which the three curves are drawn; [ax3_ylim] is [ax3.set_ylim(-6, 3)]. *)

Definition linspace (start stop : R) (num : nat) : list R :=
  map (fun i => start + INR i * ((stop - start) / INR (num - 1))) (seq 0 num).

Definition x_grid : list R := linspace (-2.5) 2.5 1000.

Definition ax3_ylim : R * R := (-6, 3).

(** A mark lies inside the plotted window: within the sampled x-range, and
    in the third panel also within the y-limits (a ball with its radius). *)
Definition in_view (a : artist) : Prop :=
  match a with
  | Plot _ x _ _ _ _ _ => hd 0 x_grid < x < last x_grid 0
  | Annotate ax3 _ xy _ _ _ _ _ =>
      hd 0 x_grid < fst xy < last x_grid 0
      /\ fst ax3_ylim < snd xy < snd ax3_ylim
  | Annotate _ _ xy _ _ _ _ _ => hd 0 x_grid < fst xy < last x_grid 0
  | Circle _ centre radius _ _ _ =>
      hd 0 x_grid < fst centre - radius
      /\ fst centre + radius < last x_grid 0
      /\ fst ax3_ylim < snd centre - radius
      /\ snd centre + radius < snd ax3_ylim
  end.

(** ** main, run against a log of its external calls

    The state is the list of external calls made so far; what a call
    returns or raises may depend on that list in any way. *)

Inductive event : Type :=
| Printed (s : string)
| Solved (x0 : R)
| Saved (fname : string) (dpi : R) (bbox_inches : string)
| Shown.

Section Traced.

Local Open Scope string_scope.

(** What each external call does, given the calls made so far. *)
Variable solver : (R -> R) -> R -> list event -> result (list R).
Variable saver : string -> R -> string -> list event -> result unit.
Variable shower : list event -> result unit.
Variable format_2f : R -> string.
Variable format_4f : R -> string.

Definition traced_fsolve (func : R -> R) (x0 : R) : M (list event) (list R) :=
  fun log => (solver func x0 log, (log ++ [Solved x0])%list).

Definition traced_print (s : string) : M (list event) unit :=
  fun log => (Returned tt, (log ++ [Printed s])%list).

Definition traced_savefig (fname : string) (dpi : R) (bbox_inches : string)
  : M (list event) unit :=
  fun log => (saver fname dpi bbox_inches log,
              (log ++ [Saved fname dpi bbox_inches])%list).

Definition traced_show : M (list event) unit :=
  fun log => (shower log, (log ++ [Shown])%list).

Definition traced_main : M (list event) unit :=
  main (list event) traced_fsolve traced_print traced_savefig traced_show
       format_2f format_4f.

Definition banner_lines : list string :=
  [ newline ++ str_mul "=" 70;
    "PHYSICS LESSON: STABLE AND UNSTABLE EQUILIBRIUM";
    str_mul "=" 70 ].


Definition solver_calls : list event := [Solved (-2); Solved 0; Solved 2].

Definition save_call : event :=
  Saved "equilibrium_lesson_output.png" 300 "tight".

(** The log up to the end of [create_visualization], when the first finder
    run returned [eq_points]. *)
Definition log_before_save (eq_points : list R) : list event :=
  (map Printed banner_lines ++ solver_calls
   ++ map Printed (print_analysis_lines format_4f eq_points)
   ++ solver_calls)%list.

(** What [main] does after [create_visualization]. *)
Definition save_and_show : M (list event) unit :=
  traced_savefig "equilibrium_lesson_output.png" 300 "tight" ;;
  traced_print ("Visualization saved as: " ++ "equilibrium_lesson_output.png") ;;
  traced_show ;;
  traced_print (newline ++ "Lesson complete! The visualization shows:") ;;
  traced_print "1. Top panel: Potential energy curve with equilibrium points marked" ;;
  traced_print "2. Middle panel: Force curve showing where F=0 (equilibrium)" ;;
  traced_print "3. Bottom panel: Physical interpretation with ball analogy".

End Traced.

(** ** Solvers and external calls for the examples *)

(** A solver that ends at the middle root from every seed. *)
Definition single_root_fsolve (func : R -> R) (x0 : R) : M nat (list R) :=
  fun calls => (Returned [0.126000193], S calls).

(** A solver whose first calls fail: it raises while fewer than ten external
    calls have been made, and answers from the table afterwards. *)
Definition warming_solver (func : R -> R) (x0 : R) (log : list event)
  : result (list R) :=
  if (List.length log <? 10)%nat then Raised "RuntimeError"%string
  else fst (table_fsolve func x0 0%nat).


Definition saver_denied (fname : string) (dpi : R) (bbox_inches : string)
  (log : list event) : result unit := Raised "PermissionError"%string.

Definition shower_ok (log : list event) : result unit := Returned tt.

(** * Properties *)

(** ** Comparisons *)

Lemma Rltb_true (a b : R) : Rltb a b = true <-> a < b.
Proof. unfold Rltb; destruct (Rlt_dec a b); split; intros; auto; discriminate. Qed.

Lemma Rltb_false (a b : R) : Rltb a b = false <-> ~ a < b.
Proof. unfold Rltb; destruct (Rlt_dec a b); split; intros; auto; try discriminate; contradiction. Qed.

Lemma Rgtb_true (a b : R) : Rgtb a b = true <-> a > b.
Proof. unfold Rgtb; destruct (Rgt_dec a b); split; intros; auto; discriminate. Qed.

Lemma Rgtb_false (a b : R) : Rgtb a b = false <-> ~ a > b.
Proof. unfold Rgtb; destruct (Rgt_dec a b); split; intros; auto; try discriminate; contradiction. Qed.

(** ** The three scalar functions *)

Lemma derivable_pt_lim_monomial (c : R) (n : nat) (x : R) :
  derivable_pt_lim (fun y => c * y ^ n) x (c * (INR n * x ^ pred n)).
Proof.
  apply (derivable_pt_lim_scal (fun y => y ^ n) c x).
  apply derivable_pt_lim_pow.
Qed.

Lemma potential_energy_derivative (x : R) :
  derivable_pt_lim potential_energy x (- force x).
Proof.
  unfold potential_energy, force.
  replace (- (- 4 * x ^ 3 + 8 * x - 1))
    with (1 * (INR 4 * x ^ pred 4) - 4 * (INR 2 * x ^ pred 2) + 1)
    by (simpl; lra).
  change (fun y : R => y ^ 4 - 4 * y ^ 2 + y)
    with (plus_fct (minus_fct (fun z => z ^ 4) (fun z => 4 * z ^ 2)) id).
  apply derivable_pt_lim_plus; [ | apply derivable_pt_lim_id ].
  apply derivable_pt_lim_minus.
  - rewrite Rmult_1_l. apply derivable_pt_lim_pow.
  - apply derivable_pt_lim_monomial.
Qed.

Lemma neg_force_derivative (x : R) :
  derivable_pt_lim (fun y => - force y) x (second_derivative x).
Proof.
  unfold force, second_derivative.
  replace (12 * x ^ 2 - 8)
    with (- (- 4 * (INR 3 * x ^ pred 3) + 8 * 1 - 0))
    by (simpl; lra).
  apply (derivable_pt_lim_opp (fun y => - 4 * y ^ 3 + 8 * y - 1)).
  apply (derivable_pt_lim_minus (fun y => - 4 * y ^ 3 + 8 * y) (fun _ => 1)).
  - apply (derivable_pt_lim_plus (fun y => - 4 * y ^ 3) (fun y => 8 * y)).
    + apply derivable_pt_lim_monomial.
    + apply (derivable_pt_lim_scal id 8 x). apply derivable_pt_lim_id.
  - apply derivable_pt_lim_const.
Qed.

(** With Stdlib's derivative operator: whatever proof of derivability is
    used, the derivative of [potential_energy] is [- force], and the
    derivative of that derivative is [second_derivative]. *)
Lemma derive_potential_energy (pr : derivable potential_energy) (x : R) :
  derive potential_energy pr x = - force x.
Proof. apply derive_pt_eq_0, potential_energy_derivative. Qed.

Lemma derive_twice_potential_energy
  (pr : derivable potential_energy)
  (pr' : derivable (derive potential_energy pr)) (x : R) :
  derive (derive potential_energy pr) pr' x = second_derivative x.
Proof.
  apply derive_pt_eq_0.
  apply (derivable_pt_lim_ext (fun y => - force y)).
  - intros z. symmetry. apply derive_potential_energy.
  - apply neg_force_derivative.
Qed.

(** C6: at every real [x], the derivative of [potential_energy] is
    [- force x] (so [force] is the negative first derivative), and the
    derivative of that first derivative is [second_derivative x] (so
    [second_derivative] is the second derivative of [potential_energy]);
    the three are the polynomials the docstrings give. *)
Theorem scalar_functions_consistent (x : R) :
  potential_energy x = x ^ 4 - 4 * x ^ 2 + x
  /\ force x = - 4 * x ^ 3 + 8 * x - 1
  /\ second_derivative x = 12 * x ^ 2 - 8
  /\ derivable_pt_lim potential_energy x (- force x)
  /\ derivable_pt_lim (fun y => - force y) x (second_derivative x)
  /\ (forall pr : derivable potential_energy,
         force x = - derive potential_energy pr x)
  /\ (forall (pr : derivable potential_energy)
              (pr' : derivable (derive potential_energy pr)),
         second_derivative x = derive (derive potential_energy pr) pr' x).
Proof.
  split; [ reflexivity | ].
  split; [ reflexivity | ].
  split; [ reflexivity | ].
  split; [ apply potential_energy_derivative | ].
  split; [ apply neg_force_derivative | ].
  split.
  - intros pr. rewrite derive_potential_energy. lra.
  - intros pr pr'. symmetry. apply derive_twice_potential_energy.
Qed.

(** ** classify_equilibrium *)

(** The three branches of [classify_equilibrium], by the sign of the
    second derivative. *)
Lemma classify_equilibrium_cases (x : R) :
  (second_derivative x > 0
   /\ classify_equilibrium x = ("stable"%string, second_derivative x))
  \/ (second_derivative x < 0
      /\ classify_equilibrium x = ("unstable"%string, second_derivative x))
  \/ (second_derivative x = 0
      /\ classify_equilibrium x = ("neutral"%string, second_derivative x)).
Proof.
  unfold classify_equilibrium. cbv zeta.
  destruct (Rgtb (second_derivative x) 0) eqn:Hgt.
  - apply Rgtb_true in Hgt. now left.
  - apply Rgtb_false in Hgt.
    destruct (Rltb (second_derivative x) 0) eqn:Hlt.
    + apply Rltb_true in Hlt. right; left. now split.
    + apply Rltb_false in Hlt. right; right. split; [ lra | reflexivity ].
Qed.

(** C2: [classify_equilibrium x] returns the curvature [12 x^2 - 8]
    (the value of [second_derivative], which is the second derivative of
    the potential) and a label that is "stable" exactly when the curvature
    is positive, "unstable" exactly when it is negative and "neutral"
    exactly when it is zero. *)
Theorem classify_equilibrium_spec (x : R) :
  let label := fst (classify_equilibrium x) in
  let curvature := snd (classify_equilibrium x) in
  curvature = 12 * x ^ 2 - 8
  /\ derivable_pt_lim (fun y => - force y) x curvature
  /\ (label = "stable"%string <-> curvature > 0)
  /\ (label = "unstable"%string <-> curvature < 0)
  /\ (label = "neutral"%string <-> curvature = 0).
Proof.
  cbv zeta.
  destruct (classify_equilibrium_cases x) as [[Hs ->] | [[Hs ->] | [Hs ->]]];
    cbn [fst snd];
    (split; [ reflexivity | split; [ apply neg_force_derivative | ] ]);
    repeat split; intros; try discriminate; try reflexivity; try lra.
Qed.

(** ** sorted *)

Lemma insert_perm (x : R) (l : list R) : Permutation (insert x l) (x :: l).
Proof.
  induction l as [| y l IH]; simpl; [ reflexivity | ].
  destruct (Rltb y x); [ | reflexivity ].
  rewrite IH. apply perm_swap.
Qed.

Lemma sorted_perm (l : list R) : Permutation (sorted l) l.
Proof.
  induction l as [| x l IH]; simpl; [ constructor | ].
  rewrite insert_perm. now constructor.
Qed.

Lemma insert_sorted (x : R) (l : list R) :
  StronglySorted Rle l -> StronglySorted Rle (insert x l).
Proof.
  induction 1 as [| y l Hs IH Hy]; simpl.
  - repeat constructor.
  - destruct (Rltb y x) eqn:E.
    + apply Rltb_true in E. constructor; [ exact IH | ].
      apply (Permutation_Forall (Permutation_sym (insert_perm x l))).
      constructor; [ lra | exact Hy ].
    + apply Rltb_false in E. constructor; [ now constructor | ].
      constructor; [ lra | ].
      eapply Forall_impl; [ | exact Hy ]. cbv beta. intros; lra.
Qed.

Lemma sorted_sorted (l : list R) : StronglySorted Rle (sorted l).
Proof.
  induction l; simpl; [ constructor | now apply insert_sorted ].
Qed.

Lemma sorted_length (l : list R) : List.length (sorted l) = List.length l.
Proof. apply Permutation_length, sorted_perm. Qed.

(** ** Positions more than 0.1 apart *)

Lemma far_sym (a b : R) : far a b -> far b a.
Proof. unfold far. now rewrite Rabs_minus_sym. Qed.

Lemma far_pairs_perm (l l' : list R) :
  Permutation l l' -> ForallOrdPairs far l -> ForallOrdPairs far l'.
Proof.
  induction 1 as [| x l l' HP IH | x y l | l l' l'' _ IH1 _ IH2]; intros H.
  - exact H.
  - inversion H; subst. constructor; [ | auto ].
    now apply (Permutation_Forall HP).
  - inversion H as [| ? ? Hy Hrest]; subst.
    inversion Hrest as [| ? ? Hx Hl]; subst.
    inversion Hy; subst.
    constructor; [ constructor; [ now apply far_sym | assumption ] | ].
    now constructor.
  - auto.
Qed.

Lemma far_pairs_snoc (l : list R) (x : R) :
  ForallOrdPairs far l -> Forall (fun y => far x y) l ->
  ForallOrdPairs far (l ++ [x]).
Proof.
  induction 1 as [| a l Ha Hl IH]; intros Hx; simpl.
  - repeat constructor.
  - inversion Hx; subst. constructor; [ | auto ].
    apply Forall_app; split; [ exact Ha | ].
    constructor; [ now apply far_sym | constructor ].
Qed.

Lemma far_pairs_nth (l : list R) :
  ForallOrdPairs far l ->
  forall (i j : nat) (a b : R),
    i <> j -> nth_error l i = Some a -> nth_error l j = Some b -> far a b.
Proof.
  induction 1 as [| x l Hx Hl IH]; intros i j a b Hij Hi Hj.
  - destruct i; discriminate.
  - rewrite Forall_forall in Hx.
    destruct i as [| i], j as [| j]; simpl in Hi, Hj.
    + contradiction.
    + injection Hi as <-. apply Hx. eapply nth_error_In; eauto.
    + injection Hj as <-. apply far_sym, Hx. eapply nth_error_In; eauto.
    + eapply IH; [ | eassumption | eassumption ]. lia.
Qed.

Lemma is_new_true (x : R) (l : list R) :
  is_new x l = true <-> Forall (fun y => far x y) l.
Proof.
  unfold is_new. rewrite forallb_forall, Forall_forall.
  split; intros H y Hy; apply Rgtb_true; now apply H.
Qed.

(** ** The finder's loop *)

Section FinderFacts.

Variable World : Type.
Variable fsolve : (R -> R) -> R -> M World (list R).

Lemma try_block_run (pts : list R) (x_guess : R) (w : World) :
  try_block fsolve pts x_guess w =
  match fsolve force x_guess w with
  | (Returned (x_eq :: _), w') => (Returned (tested pts x_eq), w')
  | (Returned [], w') => (Raised "IndexError"%string, w')
  | (Raised e, w') => (Raised e, w')
  end.
Proof.
  unfold try_block, bind, tested.
  destruct (fsolve force x_guess w) as [[[| x_eq a] | e] w']; simpl;
    try reflexivity.
  now destruct (is_new x_eq pts && Rltb (Rabs (force x_eq)) 1e-6).
Qed.

Lemma loop_body_run (pts : list R) (x_guess : R) (w : World) :
  loop_body fsolve pts x_guess w =
  match try_block fsolve pts x_guess w with
  | (Returned pts', w') => (Returned pts', w')
  | (Raised _, w') => (Returned pts, w')
  end.
Proof. reflexivity. Qed.

Lemma loop_body_returns (pts : list R) (x_guess : R) (w : World) :
  exists pts' w',
    loop_body fsolve pts x_guess w = (Returned pts', w')
    /\ (pts' = pts \/ exists x_eq, pts' = tested pts x_eq).
Proof.
  rewrite loop_body_run, try_block_run.
  destruct (fsolve force x_guess w) as [[[| x_eq a] | e] w']; eauto 7.
Qed.

Lemma for_each_cons (x_guess : R) (rest pts : list R) (w : World) :
  for_each fsolve (x_guess :: rest) pts w =
  match loop_body fsolve pts x_guess w with
  | (Returned pts', w') => for_each fsolve rest pts' w'
  | (Raised e, w') => (Raised e, w')
  end.
Proof. reflexivity. Qed.

Lemma tested_accepted (pts : list R) (x_eq : R) :
  accepted pts -> accepted (tested pts x_eq).
Proof.
  intros [Hroot Hfar]. unfold tested.
  destruct (is_new x_eq pts && Rltb (Rabs (force x_eq)) 1e-6) eqn:E;
    [ | now split ].
  apply andb_true_iff in E. destruct E as [Hnew Hsmall].
  apply is_new_true in Hnew. apply Rltb_true in Hsmall.
  split.
  - apply Forall_app; split; [ exact Hroot | now repeat constructor ].
  - now apply far_pairs_snoc.
Qed.

Lemma tested_length (pts : list R) (x_eq : R) :
  (List.length (tested pts x_eq) <= S (List.length pts))%nat.
Proof.
  unfold tested.
  destruct (is_new x_eq pts && Rltb (Rabs (force x_eq)) 1e-6);
    [ rewrite length_app; simpl | ]; lia.
Qed.

(** The loop returns for every list of seeds; it keeps [accepted], and
    each seed adds at most one position. *)
Lemma for_each_returns (guesses pts : list R) (w : World) :
  exists pts' w',
    for_each fsolve guesses pts w = (Returned pts', w')
    /\ (accepted pts -> accepted pts')
    /\ (List.length pts' <= List.length pts + List.length guesses)%nat.
Proof.
  revert pts w.
  induction guesses as [| x_guess rest IH]; intros pts w.
  - exists pts, w. simpl. split; [ reflexivity | split; [ auto | lia ] ].
  - rewrite for_each_cons.
    destruct (loop_body_returns pts x_guess w) as (pts1 & w1 & -> & Hpts1).
    destruct (IH pts1 w1) as (pts' & w' & Hrun & Hacc & Hlen).
    exists pts', w'. split; [ exact Hrun | ].
    destruct Hpts1 as [-> | [x_eq ->]].
    + split; [ exact Hacc | simpl; lia ].
    + split.
      * intros H. now apply Hacc, tested_accepted.
      * pose proof (tested_length pts x_eq). simpl. lia.
Qed.

Lemma find_equilibrium_points_run (w : World) :
  find_equilibrium_points fsolve w =
  match for_each fsolve [-2; 0; 2] [] w with
  | (Returned pts, w') => (Returned (sorted pts), w')
  | (Raised e, w') => (Raised e, w')
  end.
Proof. reflexivity. Qed.

(** What every call returns. *)
Lemma find_equilibrium_points_returns (w : World) :
  exists (l : list R) (w' : World),
    find_equilibrium_points fsolve w = (Returned l, w')
    /\ StronglySorted Rle l
    /\ accepted l
    /\ (List.length l <= 3)%nat.
Proof.
  rewrite find_equilibrium_points_run.
  destruct (for_each_returns [-2; 0; 2] [] w) as (pts & w' & -> & Hacc & Hlen).
  destruct Hacc as [Hroot Hfar]; [ split; constructor | ].
  exists (sorted pts), w'. split; [ reflexivity | ].
  split; [ apply sorted_sorted | ].
  split; [ split | ].
  - now apply (Permutation_Forall (Permutation_sym (sorted_perm pts))).
  - apply (far_pairs_perm pts); [ apply Permutation_sym, sorted_perm | exact Hfar ].
  - rewrite sorted_length. exact Hlen.
Qed.

(** C1: every call of [find_equilibrium_points] returns a list that is in
    ascending order, whose entries at two different indices differ by more
    than 0.1, and whose every entry [x] has [|force x| < 1e-6], with
    [force x = -4x^3 + 8x - 1]. *)
Theorem find_equilibrium_points_invariant (w : World) :
  exists (l : list R) (w' : World),
    find_equilibrium_points fsolve w = (Returned l, w')
    /\ StronglySorted Rle l
    /\ (forall (i j : nat) (a b : R),
           i <> j -> nth_error l i = Some a -> nth_error l j = Some b ->
           Rabs (a - b) > 0.1)
    /\ Forall (fun x => Rabs (force x) < 1e-6
                        /\ force x = - 4 * x ^ 3 + 8 * x - 1) l.
Proof.
  destruct (find_equilibrium_points_returns w)
    as (l & w' & Hrun & Hsorted & [Hroot Hfar] & _).
  exists l, w'. split; [ exact Hrun | ].
  split; [ exact Hsorted | ].
  split.
  - now apply far_pairs_nth.
  - eapply Forall_impl; [ | exact Hroot ]. cbv beta. intros x Hx. now split.
Qed.

(** C9: the returned list never has more than three positions; in the
    loop each seed adds at most one position to the list, so the list is
    never longer than the number of seeds processed. *)
Theorem find_equilibrium_points_at_most_three (w : World) :
  (exists (l : list R) (w' : World),
      find_equilibrium_points fsolve w = (Returned l, w')
      /\ (List.length l <= 3)%nat)
  /\ (forall (pts : list R) (x_guess : R) (w0 : World),
         exists pts' w', loop_body fsolve pts x_guess w0 = (Returned pts', w')
                         /\ (List.length pts' <= S (List.length pts))%nat)
  /\ (forall (guesses : list R) (w0 : World),
         exists pts' w', for_each fsolve guesses [] w0 = (Returned pts', w')
                         /\ (List.length pts' <= List.length guesses)%nat).
Proof.
  split; [ | split ].
  - destruct (find_equilibrium_points_returns w)
      as (l & w' & Hrun & _ & _ & Hlen).
    now exists l, w'.
  - intros pts x_guess w0.
    destruct (loop_body_returns pts x_guess w0) as (pts' & w' & Hrun & Hpts).
    exists pts', w'. split; [ exact Hrun | ].
    destruct Hpts as [-> | [x_eq ->]]; [ lia | apply tested_length ].
  - intros guesses w0.
    destruct (for_each_returns guesses [] w0) as (pts' & w' & Hrun & _ & Hlen).
    exists pts', w'. split; [ exact Hrun | exact Hlen ].
Qed.

Lemma snoc_neq (pts : list R) (x : R) : pts ++ [x] <> pts.
Proof.
  intros H. apply (f_equal (@List.length R)) in H.
  rewrite length_app in H. simpl in H. lia.
Qed.

(** C3: when the solver returns a candidate [x_eq] for a seed, the
    iteration appends it to the list exactly when (a) [|force x_eq| < 1e-6]
    and (b) it differs from every position already in the list by more than
    0.1; a candidate failing either test leaves the list as it was. *)
Theorem candidate_appended_iff
  (pts : list R) (x_guess : R) (w : World)
  (x_eq : R) (a : list R) (w' : World) :
  fsolve force x_guess w = (Returned (x_eq :: a), w') ->
  let test_a := Rabs (force x_eq) < 1e-6 in
  let test_b := forall y, In y pts -> Rabs (x_eq - y) > 0.1 in
  (loop_body fsolve pts x_guess w = (Returned (pts ++ [x_eq]), w')
   <-> test_a /\ test_b)
  /\ (~ (test_a /\ test_b) ->
      loop_body fsolve pts x_guess w = (Returned pts, w')).
Proof.
  intros Hsolve. cbv zeta.
  rewrite loop_body_run, try_block_run, Hsolve. unfold tested.
  destruct (is_new x_eq pts && Rltb (Rabs (force x_eq)) 1e-6) eqn:E.
  - apply andb_true_iff in E. destruct E as [Hnew Hsmall].
    apply is_new_true in Hnew. rewrite Forall_forall in Hnew.
    apply Rltb_true in Hsmall.
    split; [ split; [ intros _; now split | reflexivity ] | ].
    intros Hno. exfalso. apply Hno. now split.
  - split; [ | reflexivity ].
    split.
    + intros H. injection H as H. symmetry in H. now apply snoc_neq in H.
    + intros [Hsmall Hnew]. exfalso.
      apply andb_false_iff in E. destruct E as [E | E].
      * assert (is_new x_eq pts = true) as Ht
          by (apply is_new_true, Forall_forall; exact Hnew).
        congruence.
      * apply Rltb_false in E. contradiction.
Qed.

Lemma fsolve_raises_try_block
  (pts : list R) (x_guess : R) (e : exn) (w w' : World) :
  fsolve force x_guess w = (Raised e, w') ->
  try_block fsolve pts x_guess w = (Raised e, w').
Proof. intros H. now rewrite try_block_run, H. Qed.

(** C5: an exception raised inside the [try] block of one seed (by
    [fsolve], or by indexing what it returned) is caught: the iteration
    ends normally with the list unchanged, the loop goes on with the
    remaining seeds, and [find_equilibrium_points] returns a list from
    every state: it never raises. *)
Theorem seed_exception_suppressed
  (pts : list R) (x_guess : R) (rest : list R) (e : exn) (w w' : World) :
  try_block fsolve pts x_guess w = (Raised e, w') ->
  loop_body fsolve pts x_guess w = (Returned pts, w')
  /\ for_each fsolve (x_guess :: rest) pts w = for_each fsolve rest pts w'
  /\ (forall w0 : World,
         exists (l : list R) (w1 : World),
           find_equilibrium_points fsolve w0 = (Returned l, w1)).
Proof.
  intros Hraise.
  assert (loop_body fsolve pts x_guess w = (Returned pts, w')) as Hbody
    by (now rewrite loop_body_run, Hraise).
  split; [ exact Hbody | split ].
  - now rewrite for_each_cons, Hbody.
  - intros w0. rewrite find_equilibrium_points_run.
    destruct (for_each_returns [-2; 0; 2] [] w0) as (pts0 & w1 & -> & _).
    now exists (sorted pts0), w1.
Qed.

Lemma for_each_seeds_raise (guesses pts : list R) :
  (forall (x_guess : R) (w : World),
      In x_guess guesses ->
      exists (e : exn) (w' : World), fsolve force x_guess w = (Raised e, w')) ->
  forall w : World,
    exists w' : World, for_each fsolve guesses pts w = (Returned pts, w').
Proof.
  induction guesses as [| x_guess rest IH]; intros Hraise w.
  - now exists w.
  - destruct (Hraise x_guess w) as (e & w1 & Hs); [ now left | ].
    rewrite for_each_cons, loop_body_run.
    rewrite (fsolve_raises_try_block pts x_guess e w w1 Hs).
    apply IH. intros s w0 Hin. apply Hraise. now right.
Qed.

(** X2: when the root search raises from each of the seeds -2, 0, 2, the
    finder returns the empty list. *)
Theorem every_seed_fails_empty_result :
  (forall (x_guess : R) (w : World),
      In x_guess [-2; 0; 2] ->
      exists (e : exn) (w' : World), fsolve force x_guess w = (Raised e, w')) ->
  forall w : World,
    exists w' : World, find_equilibrium_points fsolve w = (Returned [], w').
Proof.
  intros Hraise w. rewrite find_equilibrium_points_run.
  destruct (for_each_seeds_raise [-2; 0; 2] [] Hraise w) as (w' & ->).
  now exists w'.
Qed.

(** The curvature does not vanish where the force does. *)
Lemma small_force_curved (x : R) :
  Rabs (force x) < 1e-6 -> second_derivative x <> 0.
Proof.
  intros Hf Hc. apply Rabs_def2 in Hf. unfold second_derivative in Hc.
  assert (x * x = 2 / 3) as Hsq by lra.
  assert (force x = 16 / 3 * x - 1) as Hforce.
  { unfold force. replace (x ^ 3) with (x * (x * x)) by ring.
    rewrite Hsq. lra. }
  rewrite Hforce in Hf.
  assert (0 < x < 0.2) as Hx by lra.
  nra.
Qed.

(** X1: no position that [find_equilibrium_points] returns is classified
    "neutral": the curvature is not zero there, and the label is "stable"
    or "unstable". *)
Theorem returned_points_never_neutral (w : World) :
  exists (l : list R) (w' : World),
    find_equilibrium_points fsolve w = (Returned l, w')
    /\ Forall (fun x => second_derivative x <> 0
                        /\ (fst (classify_equilibrium x) = "stable"%string
                            \/ fst (classify_equilibrium x) = "unstable"%string)) l.
Proof.
  destruct (find_equilibrium_points_returns w)
    as (l & w' & Hrun & _ & [Hroots _] & _).
  exists l, w'. split; [ exact Hrun | ].
  eapply Forall_impl; [ | exact Hroots ]. cbv beta.
  intros x Hsmall. pose proof (small_force_curved x Hsmall) as Hc.
  split; [ exact Hc | ].
  destruct (classify_equilibrium_cases x) as [[_ ->] | [[_ ->] | [H0 _]]];
    cbn [fst]; auto.
  contradiction.
Qed.

End FinderFacts.

(** ** Where the force vanishes *)

Lemma force_diff (x a : R) :
  force x - force a = (x - a) * (8 - 4 * (x * x + a * x + a * a)).
Proof. unfold force. ring. Qed.

Lemma root_left (x : R) :
  -3 < x < -1 -> Rabs (force x) < 1e-6 -> -1.474 < x < -1.472.
Proof.
  intros Hx Hf. apply Rabs_def2 in Hf.
  split.
  - destruct (Rlt_le_dec (-1.474) x) as [H | H]; [ exact H | exfalso ].
    pose proof (force_diff x (-1.474)) as D.
    assert (force (-1.474) > 1e-6) by (unfold force; lra).
    nra.
  - destruct (Rlt_le_dec x (-1.472)) as [H | H]; [ exact H | exfalso ].
    pose proof (force_diff x (-1.472)) as D.
    assert (force (-1.472) < -1e-6) by (unfold force; lra).
    nra.
Qed.

Lemma root_middle (x : R) :
  -1 < x < 1 -> Rabs (force x) < 1e-6 -> 0.125 < x < 0.127.
Proof.
  intros Hx Hf. apply Rabs_def2 in Hf.
  assert (x * x < 1) as Hsq by nra.
  split.
  - destruct (Rlt_le_dec 0.125 x) as [H | H]; [ exact H | exfalso ].
    pose proof (force_diff x 0.125) as D.
    assert (force 0.125 < -1e-6) by (unfold force; lra).
    assert (0 < 8 - 4 * (x * x + 0.125 * x + 0.125 * 0.125)) by lra.
    nra.
  - destruct (Rlt_le_dec x 0.127) as [H | H]; [ exact H | exfalso ].
    pose proof (force_diff x 0.127) as D.
    assert (force 0.127 > 1e-6) by (unfold force; lra).
    assert (0 < 8 - 4 * (x * x + 0.127 * x + 0.127 * 0.127)) by lra.
    nra.
Qed.

Lemma root_right (x : R) :
  1 < x < 3 -> Rabs (force x) < 1e-6 -> 1.346 < x < 1.348.
Proof.
  intros Hx Hf. apply Rabs_def2 in Hf.
  split.
  - destruct (Rlt_le_dec 1.346 x) as [H | H]; [ exact H | exfalso ].
    pose proof (force_diff x 1.346) as D.
    assert (force 1.346 > 1e-6) by (unfold force; lra).
    nra.
  - destruct (Rlt_le_dec x 1.348) as [H | H]; [ exact H | exfalso ].
    pose proof (force_diff x 1.348) as D.
    assert (force 1.348 < -1e-6) by (unfold force; lra).
    nra.
Qed.

Lemma classify_outer (x : R) :
  x < -1 \/ 1 < x ->
  classify_equilibrium x = ("stable"%string, 12 * x ^ 2 - 8)
  /\ 12 * x ^ 2 - 8 > 0.
Proof.
  intros Hx. assert (12 * x ^ 2 - 8 > 0) as Hpos by nra.
  split; [ | exact Hpos ].
  unfold classify_equilibrium, second_derivative.
  now rewrite (proj2 (Rgtb_true _ _) Hpos).
Qed.

Lemma classify_inner (x : R) :
  -0.5 < x < 0.5 ->
  classify_equilibrium x = ("unstable"%string, 12 * x ^ 2 - 8)
  /\ 12 * x ^ 2 - 8 < 0.
Proof.
  intros Hx. assert (12 * x ^ 2 - 8 < 0) as Hneg by nra.
  split; [ | exact Hneg ].
  unfold classify_equilibrium, second_derivative.
  assert (~ 12 * x ^ 2 - 8 > 0) as Hnot by lra.
  rewrite (proj2 (Rgtb_false _ _) Hnot).
  now rewrite (proj2 (Rltb_true _ _) Hneg).
Qed.

Lemma tested_appends (pts : list R) (x_eq : R) :
  Rabs (force x_eq) < 1e-6 ->
  Forall (fun y => far x_eq y) pts ->
  tested pts x_eq = pts ++ [x_eq].
Proof.
  intros Hsmall Hnew. unfold tested.
  rewrite (proj2 (is_new_true _ _) Hnew).
  now rewrite (proj2 (Rltb_true _ _) Hsmall).
Qed.

Lemma sorted_three (a b c : R) : a < b -> b < c -> sorted [a; b; c] = [a; b; c].
Proof.
  intros Hab Hbc. simpl.
  assert (~ c < b) as Hcb by lra. rewrite (proj2 (Rltb_false _ _) Hcb).
  simpl.
  assert (~ b < a) as Hba by lra. now rewrite (proj2 (Rltb_false _ _) Hba).
Qed.

(** ** The marks of create_visualization *)

Section VisualizationFacts.

Local Open Scope string_scope.

Variable format_2f : R -> string.

(** [create_visualization] draws, for the positions the finder returns, the
    marks of the three loops in order, and returns those positions. *)
Lemma create_visualization_run
  (World : Type) (fsolve : (R -> R) -> R -> M World (list R)) (w : World) :
  exists (eq_points : list R) (w' : World),
    find_equilibrium_points fsolve w = (Returned eq_points, w')
    /\ create_visualization format_2f World fsolve w =
       (Returned ((flat_map (mark_potential format_2f) eq_points
                   ++ flat_map (mark_force format_2f) eq_points
                   ++ flat_map mark_ball eq_points)%list,
                  eq_points), w').
Proof.
  destruct (find_equilibrium_points_returns World fsolve w)
    as (eq_points & w' & Hrun & _).
  exists eq_points, w'. split; [ exact Hrun | ].
  unfold create_visualization, bind. now rewrite Hrun.
Qed.

End VisualizationFacts.

(** * Concrete runs *)

Lemma Rltb_lt (a b : R) : a < b -> Rltb a b = true.
Proof. apply Rltb_true. Qed.

Lemma Rltb_nlt (a b : R) : ~ a < b -> Rltb a b = false.
Proof. apply Rltb_false. Qed.

Ltac eval_Rltb :=
  repeat match goal with
    | |- context [Rltb ?a ?b] =>
        first [ rewrite (Rltb_lt a b) by lra | rewrite (Rltb_nlt a b) by lra ]
    end.

Lemma candidate_appended_iff_witness :
  table_fsolve force 0 1%nat = (Returned [0.126000193], 2%nat)
  /\ (loop_body table_fsolve [-1.472997601] 0 1%nat
        = (Returned ([-1.472997601] ++ [0.126000193]), 2%nat)
      <-> Rabs (force 0.126000193) < 1e-6
          /\ (forall y, In y [-1.472997601] -> Rabs (0.126000193 - y) > 0.1))
  /\ (~ (Rabs (force 0.126000193) < 1e-6
         /\ (forall y, In y [-1.472997601] -> Rabs (0.126000193 - y) > 0.1)) ->
      loop_body table_fsolve [-1.472997601] 0 1%nat
        = (Returned [-1.472997601], 2%nat)).
Proof.
  assert (table_fsolve force 0 1%nat = (Returned [0.126000193], 2%nat)) as H
    by (unfold table_fsolve; eval_Rltb; reflexivity).
  split; [ exact H | ].
  exact (candidate_appended_iff nat table_fsolve [-1.472997601] 0 1%nat
           0.126000193 [] 2%nat H).
Defined.

Lemma seed_exception_suppressed_witness :
  try_block flaky_fsolve [-1.472997601] 0 1%nat
    = (Raised "RuntimeError"%string, 2%nat)
  /\ loop_body flaky_fsolve [-1.472997601] 0 1%nat
     = (Returned [-1.472997601], 2%nat)
  /\ for_each flaky_fsolve [0; 2] [-1.472997601] 1%nat
     = for_each flaky_fsolve [2] [-1.472997601] 2%nat
  /\ (forall w0 : nat,
         exists (l : list R) (w1 : nat),
           find_equilibrium_points flaky_fsolve w0 = (Returned l, w1)).
Proof.
  assert (try_block flaky_fsolve [-1.472997601] 0 1%nat
          = (Raised "RuntimeError"%string, 2%nat)) as H
    by (apply fsolve_raises_try_block; unfold flaky_fsolve; eval_Rltb;
        reflexivity).
  split; [ exact H | ].
  exact (seed_exception_suppressed nat flaky_fsolve [-1.472997601] 0 [2]
           "RuntimeError"%string 1%nat 2%nat H).
Defined.

Lemma every_seed_fails_empty_result_witness :
  (forall (x_guess : R) (w : nat),
      In x_guess [-2; 0; 2] ->
      exists (e : exn) (w' : nat),
        seeds_failing_fsolve force x_guess w = (Raised e, w'))
  /\ seeds_failing_fsolve force 1 0%nat = (Returned [1.346997409], 1%nat)
  /\ exists w' : nat,
      find_equilibrium_points seeds_failing_fsolve 0%nat = (Returned [], w').
Proof.
  assert (forall (x_guess : R) (w : nat),
             In x_guess [-2; 0; 2] ->
             exists (e : exn) (w' : nat),
               seeds_failing_fsolve force x_guess w = (Raised e, w')) as H.
  { intros x_guess w Hin. exists "RuntimeError"%string, (S w).
    unfold seeds_failing_fsolve, Reqb.
    destruct Hin as [<- | [<- | [<- | []]]]; eval_Rltb; reflexivity. }
  split; [ exact H | split ].
  - unfold seeds_failing_fsolve, Reqb, table_fsolve. eval_Rltb. reflexivity.
  - exact (every_seed_fails_empty_result nat seeds_failing_fsolve H 0%nat).
Defined.

(** * Further properties *)

Lemma force_continuity : continuity force.
Proof. unfold force. reg. Qed.

Lemma small_force_near_root (x : R) :
  Rabs (force x) < 1e-6 ->
  -1.474 < x < -1.472 \/ 0.125 < x < 0.127 \/ 1.346 < x < 1.348.
Proof.
  intros Hf.
  destruct (Rle_lt_dec x (-3)) as [H1 | H1].
  { exfalso. apply Rabs_def2 in Hf. pose proof (force_diff x (-3)) as D.
    assert (force (-3) = 83) by (unfold force; lra). nra. }
  destruct (Rlt_le_dec x (-1)) as [H2 | H2].
  { left. apply root_left; [ lra | exact Hf ]. }
  destruct (Req_dec x (-1)) as [-> | H3].
  { exfalso. apply Rabs_def2 in Hf. unfold force in Hf. lra. }
  destruct (Rlt_le_dec x 1) as [H4 | H4].
  { right; left. apply root_middle; [ lra | exact Hf ]. }
  destruct (Req_dec x 1) as [-> | H5].
  { exfalso. apply Rabs_def2 in Hf. unfold force in Hf. lra. }
  destruct (Rlt_le_dec x 3) as [H6 | H6].
  { right; right. apply root_right; [ lra | exact Hf ]. }
  exfalso. apply Rabs_def2 in Hf. pose proof (force_diff x 3) as D.
  assert (force 3 = -85) by (unfold force; lra). nra.
Qed.

Lemma neg_force_continuity : continuity (fun x => - force x).
Proof. unfold force. reg. Qed.

Lemma force_zero_left : { z : R | -1.474 <= z <= -1.472 /\ force z = 0 }.
Proof.
  destruct (IVT (fun x => - force x) (-1.474) (-1.472) neg_force_continuity)
    as [z [Hz Hf]]; try (unfold force; lra).
  exists z. split; [ exact Hz | lra ].
Qed.

Lemma force_zero_middle : { z : R | 0.125 <= z <= 0.127 /\ force z = 0 }.
Proof.
  destruct (IVT force 0.125 0.127 force_continuity)
    as [z [Hz Hf]]; try (unfold force; lra).
  now exists z.
Qed.

Lemma force_zero_right : { z : R | 1.346 <= z <= 1.348 /\ force z = 0 }.
Proof.
  destruct (IVT (fun x => - force x) 1.346 1.348 neg_force_continuity)
    as [z [Hz Hf]]; try (unfold force; lra).
  exists z. split; [ exact Hz | lra ].
Qed.

Lemma force_zero_unique_outer (x y : R) :
  (x <= -1 /\ y <= -1) \/ (1 <= x /\ 1 <= y) ->
  force x = 0 -> force y = 0 -> x = y.
Proof.
  intros Hside Hx Hy. pose proof (force_diff x y) as D.
  rewrite Hx, Hy in D.
  assert (8 - 4 * (x * x + y * x + y * y) < 0) as Hneg by nra.
  nra.
Qed.

Lemma force_zero_unique_inner (x y : R) :
  -0.5 <= x <= 0.5 -> -0.5 <= y <= 0.5 ->
  force x = 0 -> force y = 0 -> x = y.
Proof.
  intros Hxr Hyr Hx Hy. pose proof (force_diff x y) as D.
  rewrite Hx, Hy in D.
  assert (8 - 4 * (x * x + y * x + y * y) > 0) as Hpos by nra.
  nra.
Qed.

Lemma potential_energy_expand (x h : R) :
  potential_energy (x + h) =
  potential_energy x - force x * h + h * h * (6 * x * x - 4 + 4 * x * h + h * h).
Proof. unfold potential_energy, force. ring. Qed.

Lemma force_expand (x h : R) :
  force (x + h) = force x - h * (second_derivative x + 12 * x * h + 4 * h * h).
Proof. unfold force, second_derivative. ring. Qed.

(* |a*h| < c when |h| < c/(k|x|+1) *)
Lemma linear_term_small (k x c h : R) :
  0 <= k -> 0 < c -> Rabs h < c / (k * Rabs x + 1) ->
  - c < k * x * h < c.
Proof.
  intros Hk Hc Hh.
  pose proof (Rabs_pos x) as Hax.
  assert (0 < k * Rabs x + 1) as Hden by nra.
  set (d := c / (k * Rabs x + 1)) in *.
  assert (d * (k * Rabs x + 1) = c) as Hd by (unfold d; field; lra).
  assert (0 < d) as Hdpos by (unfold d; apply Rdiv_lt_0_compat; lra).
  apply Rabs_def2 in Hh.
  assert (- Rabs x <= x <= Rabs x) as Hx
    by (unfold Rabs; destruct (Rcase_abs x); lra).
  assert (Rabs (x * h) <= Rabs x * d) as Hprod.
  { rewrite Rabs_mult. apply Rmult_le_compat_l; [ lra | ].
    unfold Rabs; destruct (Rcase_abs h); lra. }
  assert (- (Rabs x * d) <= x * h <= Rabs x * d) as Hxh
    by (unfold Rabs in Hprod at 1; destruct (Rcase_abs (x * h)); lra).
  nra.
Qed.

Lemma stable_below (x : R) :
  second_derivative x > 0 ->
  exists delta : R, delta > 0 /\
    forall y : R, y <> x -> Rabs (y - x) < delta ->
      potential_energy y > potential_energy x - force x * (y - x)
      /\ (y - x) * (force y - force x) < 0.
Proof.
  intros Hs. unfold second_derivative in Hs.
  set (c := 6 * x * x - 4).
  assert (0 < c) as Hc by (unfold c; nra).
  exists (c / (12 * Rabs x + 1)).
  pose proof (Rabs_pos x) as Hax.
  split; [ apply Rdiv_lt_0_compat; lra | ].
  intros y Hne Hy.
  assert (0 <= 12) as H12 by lra.
  pose proof (linear_term_small 12 x c (y - x) H12 Hc Hy) as Hlin.
  assert (exists h, y = x + h /\ h <> 0 /\ - c < 12 * x * h < c) as (h & -> & Hh0 & Hl).
  { exists (y - x). split; [ ring | split; [ lra | exact Hlin ] ]. }
  replace (x + h - x) with h by ring.
  assert (0 < h * h) as Hhh by nra.
  assert (0 < c + 4 * x * h + h * h) as Hq1 by nra.
  assert (0 < 2 * c + 12 * x * h + 4 * (h * h)) as Hq2 by nra.
  pose proof (Rmult_lt_0_compat _ _ Hhh Hq1) as P1.
  pose proof (Rmult_lt_0_compat _ _ Hhh Hq2) as P2.
  split.
  - rewrite potential_energy_expand. unfold c in P1. lra.
  - rewrite force_expand. unfold second_derivative. unfold c in P2. nra.
Qed.

Lemma unstable_above (x : R) :
  second_derivative x < 0 ->
  exists delta : R, delta > 0 /\
    forall y : R, y <> x -> Rabs (y - x) < delta ->
      potential_energy y < potential_energy x - force x * (y - x)
      /\ (y - x) * (force y - force x) > 0.
Proof.
  intros Hs. unfold second_derivative in Hs.
  set (c := 4 - 6 * x * x).
  assert (0 < c <= 4) as Hc by (unfold c; nra).
  pose proof (Rabs_pos x) as Hax.
  assert (0 < c / (12 * Rabs x + 1)) as Hd by (apply Rdiv_lt_0_compat; lra).
  exists (Rmin (c / 4) (c / (12 * Rabs x + 1))).
  split; [ apply Rmin_glb_lt; lra | ].
  intros y Hne Hy.
  assert (Rabs (y - x) < c / 4) as Hy1
    by (eapply Rlt_le_trans; [ exact Hy | apply Rmin_l ]).
  assert (Rabs (y - x) < c / (12 * Rabs x + 1)) as Hy2
    by (eapply Rlt_le_trans; [ exact Hy | apply Rmin_r ]).
  assert (0 <= 12) as H12 by lra.
  pose proof (linear_term_small 12 x c (y - x) H12 (proj1 Hc) Hy2) as Hlin.
  assert (exists h, y = x + h /\ h <> 0 /\ - c < 12 * x * h < c
                    /\ - (c / 4) < h < c / 4) as (h & -> & Hh0 & Hl & Hh1).
  { exists (y - x). apply Rabs_def2 in Hy1.
    split; [ ring | split; [ lra | split; [ exact Hlin | lra ] ] ]. }
  replace (x + h - x) with h by ring.
  assert (0 < h * h) as Hhh by nra.
  assert (h * h < c / 4) as Hsq by nra.
  assert (0 < c - 4 * x * h - h * h) as Hq1 by lra.
  assert (0 < 2 * c - 12 * x * h - 4 * (h * h)) as Hq2 by lra.
  pose proof (Rmult_lt_0_compat _ _ Hhh Hq1) as P1.
  pose proof (Rmult_lt_0_compat _ _ Hhh Hq2) as P2.
  split.
  - rewrite potential_energy_expand. unfold c in P1. lra.
  - rewrite force_expand. unfold second_derivative. unfold c in P2. nra.
Qed.

Section FinderMore.

Variable World : Type.
Variable fsolve : (R -> R) -> R -> M World (list R).

Lemma tested_cases (pts : list R) (x_eq : R) :
  tested pts x_eq = pts \/ tested pts x_eq = pts ++ [x_eq].
Proof.
  unfold tested.
  destruct (is_new x_eq pts && Rltb (Rabs (force x_eq)) 1e-6); auto.
Qed.

Lemma loop_body_detail (pts : list R) (x_guess : R) (w : World) :
  exists pts',
    loop_body fsolve pts x_guess w = (Returned pts', snd (fsolve force x_guess w))
    /\ (pts' = pts
        \/ exists x_eq a, fst (fsolve force x_guess w) = Returned (x_eq :: a)
                          /\ pts' = pts ++ [x_eq]).
Proof.
  rewrite loop_body_run, try_block_run.
  destruct (fsolve force x_guess w) as [[[| x_eq a] | e] w']; cbn [fst snd].
  - exists pts. auto.
  - destruct (tested_cases pts x_eq) as [-> | ->].
    + exists pts. auto.
    + exists (pts ++ [x_eq]). split; [ reflexivity | right ].
      now exists x_eq, a.
  - exists pts. auto.
Qed.

Lemma for_each_detail (guesses pts : list R) (w : World) :
  exists more,
    for_each fsolve guesses pts w
    = (Returned (pts ++ more), solver_states World fsolve guesses w)
    /\ (List.length more <= List.length guesses)%nat
    /\ Forall (fun x => exists x_guess w0 a,
                   In x_guess guesses
                   /\ fst (fsolve force x_guess w0) = Returned (x :: a)) more.
Proof.
  revert pts w. induction guesses as [| x_guess rest IH]; intros pts w.
  - exists []. rewrite app_nil_r. simpl. auto.
  - rewrite for_each_cons.
    destruct (loop_body_detail pts x_guess w) as (pts1 & -> & Hpts1).
    destruct (IH pts1 (snd (fsolve force x_guess w))) as (more & -> & Hlen & Hfrom).
    assert (Forall (fun x => exists x_guess0 w0 a,
                   In x_guess0 (x_guess :: rest)
                   /\ fst (fsolve force x_guess0 w0) = Returned (x :: a)) more)
      as Hfrom'.
    { eapply Forall_impl; [ | exact Hfrom ]. cbv beta.
      intros x (s & w0 & a & Hs & Hr). exists s, w0, a. split; [ now right | exact Hr ]. }
    destruct Hpts1 as [-> | (x_eq & a & Hr & ->)].
    + exists more. split; [ reflexivity | split; [ simpl; lia | exact Hfrom' ] ].
    + exists (x_eq :: more). rewrite <- app_assoc. split; [ reflexivity | ].
      split; [ simpl; lia | ].
      constructor; [ | exact Hfrom' ].
      exists x_guess, w, a. split; [ now left | exact Hr ].
Qed.

End FinderMore.

Lemma len_app (a b : string) : len (a ++ b) = (len a + len b)%nat.
Proof.
  induction a as [| c a IH]; simpl; [ reflexivity | ].
  destruct (is_continuation c); simpl; now rewrite IH.
Qed.

Lemma len_spaces (n : nat) : len (str_mul " " n) = n.
Proof. induction n as [| n IH]; simpl; [ reflexivity | now rewrite IH ]. Qed.

Lemma len_ljust (s : string) (width : nat) :
  len (ljust s width) = Nat.max (len s) width.
Proof. unfold ljust. rewrite len_app, len_spaces. lia. Qed.

Lemma upper_ascii_continuation (c : ascii) :
  is_continuation (upper_ascii c) = is_continuation c.
Proof.
  unfold upper_ascii, is_continuation. cbv zeta.
  destruct ((97 <=? nat_of_ascii c) && (nat_of_ascii c <=? 122))%nat eqn:E;
    [ | reflexivity ].
  apply andb_true_iff in E. destruct E as [E1 E2].
  apply Nat.leb_le in E1. apply Nat.leb_le in E2.
  rewrite nat_ascii_embedding by lia.
  assert ((128 <=? nat_of_ascii c - 32) = false)%nat as -> by (apply Nat.leb_gt; lia).
  assert ((128 <=? nat_of_ascii c) = false)%nat as -> by (apply Nat.leb_gt; lia).
  reflexivity.
Qed.

Lemma len_upper (s : string) : len (upper s) = len s.
Proof.
  induction s as [| c s IH]; simpl; [ reflexivity | ].
  now rewrite upper_ascii_continuation, IH.
Qed.

(** ** Equilibria of the potential *)

Definition root_left_of_force : R := proj1_sig force_zero_left.

Definition root_middle_of_force : R := proj1_sig force_zero_middle.

Definition root_right_of_force : R := proj1_sig force_zero_right.

Lemma label_stable_curvature (x : R) :
  fst (classify_equilibrium x) = "stable"%string -> second_derivative x > 0.
Proof.
  destruct (classify_equilibrium_cases x) as [[H ->] | [[H ->] | [H ->]]];
    cbn [fst]; intros E; [ exact H | discriminate | discriminate ].
Qed.

Lemma label_unstable_curvature (x : R) :
  fst (classify_equilibrium x) = "unstable"%string -> second_derivative x < 0.
Proof.
  destruct (classify_equilibrium_cases x) as [[H ->] | [[H ->] | [H ->]]];
    cbn [fst]; intros E; [ discriminate | exact H | discriminate ].
Qed.

Lemma zero_force_small (x : R) : force x = 0 -> Rabs (force x) < 1e-6.
Proof. intros ->. rewrite Rabs_R0. lra. Qed.

(** X3: at an equilibrium (force exactly zero) labelled "stable" the
    potential energy has a strict local minimum, and at one labelled
    "unstable" a strict local maximum. *)
Theorem equilibrium_is_local_extremum (x : R) :
  force x = 0 ->
  (fst (classify_equilibrium x) = "stable"%string ->
   exists delta : R, delta > 0 /\
     forall y : R, y <> x -> Rabs (y - x) < delta ->
       potential_energy x < potential_energy y)
  /\ (fst (classify_equilibrium x) = "unstable"%string ->
      exists delta : R, delta > 0 /\
        forall y : R, y <> x -> Rabs (y - x) < delta ->
          potential_energy y < potential_energy x).
Proof.
  intros Hzero. split; intros Hlabel.
  - destruct (stable_below x (label_stable_curvature x Hlabel))
      as (delta & Hpos & Hnear).
    exists delta. split; [ exact Hpos | ].
    intros y Hne Hy. destruct (Hnear y Hne Hy) as [HU _].
    rewrite Hzero in HU. lra.
  - destruct (unstable_above x (label_unstable_curvature x Hlabel))
      as (delta & Hpos & Hnear).
    exists delta. split; [ exact Hpos | ].
    intros y Hne Hy. destruct (Hnear y Hne Hy) as [HU _].
    rewrite Hzero in HU. lra.
Qed.

(** X4: next to a "stable" equilibrium the force points back to it (it
    has the sign opposite to the displacement), and next to an "unstable"
    one it points away. *)
Theorem force_direction_near_equilibrium (x : R) :
  force x = 0 ->
  (fst (classify_equilibrium x) = "stable"%string ->
   exists delta : R, delta > 0 /\
     forall y : R, y <> x -> Rabs (y - x) < delta -> (y - x) * force y < 0)
  /\ (fst (classify_equilibrium x) = "unstable"%string ->
      exists delta : R, delta > 0 /\
        forall y : R, y <> x -> Rabs (y - x) < delta -> (y - x) * force y > 0).
Proof.
  intros Hzero. split; intros Hlabel.
  - destruct (stable_below x (label_stable_curvature x Hlabel))
      as (delta & Hpos & Hnear).
    exists delta. split; [ exact Hpos | ].
    intros y Hne Hy. destruct (Hnear y Hne Hy) as [_ HF].
    rewrite Hzero, Rminus_0_r in HF. exact HF.
  - destruct (unstable_above x (label_unstable_curvature x Hlabel))
      as (delta & Hpos & Hnear).
    exists delta. split; [ exact Hpos | ].
    intros y Hne Hy. destruct (Hnear y Hne Hy) as [_ HF].
    rewrite Hzero, Rminus_0_r in HF. exact HF.
Qed.

Lemma root_left_of_force_spec :
  -1.474 <= root_left_of_force <= -1.472 /\ force root_left_of_force = 0.
Proof. exact (proj2_sig force_zero_left). Qed.

Lemma root_middle_of_force_spec :
  0.125 <= root_middle_of_force <= 0.127 /\ force root_middle_of_force = 0.
Proof. exact (proj2_sig force_zero_middle). Qed.

Lemma root_right_of_force_spec :
  1.346 <= root_right_of_force <= 1.348 /\ force root_right_of_force = 0.
Proof. exact (proj2_sig force_zero_right). Qed.

(** X5: the force vanishes at exactly three positions, one in each of
    [-1.474, -1.472], [0.125, 0.127] and [1.346, 1.348];
    [classify_equilibrium] labels them stable, unstable, stable. *)
Theorem force_has_exactly_three_zeros :
  exists r1 r2 r3 : R,
    (-1.474 <= r1 <= -1.472 /\ 0.125 <= r2 <= 0.127 /\ 1.346 <= r3 <= 1.348)
    /\ (force r1 = 0 /\ force r2 = 0 /\ force r3 = 0)
    /\ (forall x : R, force x = 0 -> x = r1 \/ x = r2 \/ x = r3)
    /\ fst (classify_equilibrium r1) = "stable"%string
    /\ fst (classify_equilibrium r2) = "unstable"%string
    /\ fst (classify_equilibrium r3) = "stable"%string.
Proof.
  destruct root_left_of_force_spec as [H1 Z1].
  destruct root_middle_of_force_spec as [H2 Z2].
  destruct root_right_of_force_spec as [H3 Z3].
  exists root_left_of_force, root_middle_of_force, root_right_of_force.
  split; [ auto | ]. split; [ auto | ]. split.
  - intros x Hx.
    destruct (small_force_near_root x (zero_force_small x Hx)) as [I | [I | I]].
    + left. apply force_zero_unique_outer; auto. left; lra.
    + right; left. apply force_zero_unique_inner; auto; lra.
    + right; right. apply force_zero_unique_outer; auto. right; lra.
  - split; [ | split ].
    + destruct (classify_outer root_left_of_force) as [-> _]; [ left; lra | reflexivity ].
    + destruct (classify_inner root_middle_of_force) as [-> _]; [ lra | reflexivity ].
    + destruct (classify_outer root_right_of_force) as [-> _]; [ right; lra | reflexivity ].
Qed.

Lemma curvature_sign_by_position (x : R) :
  (second_derivative x > 0 <-> Rabs x > sqrt (2 / 3))
  /\ (second_derivative x < 0 <-> Rabs x < sqrt (2 / 3))
  /\ (second_derivative x = 0 <-> Rabs x = sqrt (2 / 3)).
Proof.
  unfold second_derivative.
  assert (0 <= sqrt (2 / 3)) as Hs0 by apply sqrt_pos.
  assert (sqrt (2 / 3) * sqrt (2 / 3) = 2 / 3) as Hss by (apply sqrt_sqrt; lra).
  pose proof (Rabs_pos x) as Ha0.
  assert (Rabs x * Rabs x = x * x) as Haa
    by (unfold Rabs; destruct (Rcase_abs x); ring).
  set (a := Rabs x) in *. set (s := sqrt (2 / 3)) in *.
  replace (x ^ 2) with (a * a) by (rewrite Haa; ring).
  repeat split; intros H; nra.
Qed.

(** X6: the label depends only on how far the position is from the
    origin: "stable" beyond [sqrt (2/3)], "unstable" inside, "neutral"
    exactly at [sqrt (2/3)] and [- sqrt (2/3)]. *)
Theorem classification_by_position (x : R) :
  (fst (classify_equilibrium x) = "stable"%string <-> Rabs x > sqrt (2 / 3))
  /\ (fst (classify_equilibrium x) = "unstable"%string <-> Rabs x < sqrt (2 / 3))
  /\ (fst (classify_equilibrium x) = "neutral"%string
      <-> x = sqrt (2 / 3) \/ x = - sqrt (2 / 3)).
Proof.
  destruct (curvature_sign_by_position x) as (Hpos & Hneg & Hzero).
  assert (Rabs x = sqrt (2 / 3) <-> x = sqrt (2 / 3) \/ x = - sqrt (2 / 3))
    as Habs.
  { pose proof (sqrt_pos (2 / 3)) as Hs0.
    unfold Rabs. destruct (Rcase_abs x); split.
    - intros H. right. lra.
    - intros [H | H]; lra.
    - intros H. left. lra.
    - intros [H | H]; lra. }
  destruct (classify_equilibrium_cases x) as [[H ->] | [[H ->] | [H ->]]];
    cbn [fst]; repeat split; intros E; try discriminate; try reflexivity;
    try (apply Hpos in H); try (apply Hneg in H); try (apply Hzero in H);
    try lra; try (apply Habs; exact H);
    try (apply Habs in E; lra).
Qed.

Lemma equilibrium_is_local_extremum_witness :
  force root_left_of_force = 0
  /\ force root_middle_of_force = 0
  /\ (exists delta : R, delta > 0 /\
        forall y : R, y <> root_left_of_force ->
          Rabs (y - root_left_of_force) < delta ->
          potential_energy root_left_of_force < potential_energy y)
  /\ (exists delta : R, delta > 0 /\
        forall y : R, y <> root_middle_of_force ->
          Rabs (y - root_middle_of_force) < delta ->
          potential_energy y < potential_energy root_middle_of_force).
Proof.
  destruct root_left_of_force_spec as [H1 Z1].
  destruct root_middle_of_force_spec as [H2 Z2].
  split; [ exact Z1 | split; [ exact Z2 | split ] ].
  - apply (proj1 (equilibrium_is_local_extremum root_left_of_force Z1)).
    destruct (classify_outer root_left_of_force) as [-> _];
      [ left; lra | reflexivity ].
  - apply (proj2 (equilibrium_is_local_extremum root_middle_of_force Z2)).
    destruct (classify_inner root_middle_of_force) as [-> _];
      [ lra | reflexivity ].
Defined.

Lemma force_direction_near_equilibrium_witness :
  force root_left_of_force = 0
  /\ force root_middle_of_force = 0
  /\ (exists delta : R, delta > 0 /\
        forall y : R, y <> root_left_of_force ->
          Rabs (y - root_left_of_force) < delta ->
          (y - root_left_of_force) * force y < 0)
  /\ (exists delta : R, delta > 0 /\
        forall y : R, y <> root_middle_of_force ->
          Rabs (y - root_middle_of_force) < delta ->
          (y - root_middle_of_force) * force y > 0).
Proof.
  destruct root_left_of_force_spec as [H1 Z1].
  destruct root_middle_of_force_spec as [H2 Z2].
  split; [ exact Z1 | split; [ exact Z2 | split ] ].
  - apply (proj1 (force_direction_near_equilibrium root_left_of_force Z1)).
    destruct (classify_outer root_left_of_force) as [-> _];
      [ left; lra | reflexivity ].
  - apply (proj2 (force_direction_near_equilibrium root_middle_of_force Z2)).
    destruct (classify_inner root_middle_of_force) as [-> _];
      [ lra | reflexivity ].
Defined.

(** ** More on the finder *)

Lemma tested_rejects (pts : list R) (x_eq y : R) :
  In y pts -> Rabs (x_eq - y) <= 0.1 -> tested pts x_eq = pts.
Proof.
  intros Hin Hclose. unfold tested.
  destruct (is_new x_eq pts) eqn:E; [ | reflexivity ].
  apply is_new_true in E. rewrite Forall_forall in E.
  specialize (E y Hin). unfold far in E. lra.
Qed.

Section FinderSoundness.

Variable World : Type.
Variable fsolve : (R -> R) -> R -> M World (list R).

(** X7: whatever the solver returns, every position the finder reports is
    within 0.001 of one of the three equilibria -1.473, 0.126, 1.347, and
    no two reported positions are near the same one. *)
Theorem returned_positions_near_equilibria (w : World) :
  exists (l : list R) (w' : World),
    find_equilibrium_points fsolve w = (Returned l, w')
    /\ Forall (fun x => Rabs (x - -1.473) < 0.001
                        \/ Rabs (x - 0.126) < 0.001
                        \/ Rabs (x - 1.347) < 0.001) l
    /\ (forall (i j : nat) (a b c : R),
           i <> j -> nth_error l i = Some a -> nth_error l j = Some b ->
           ~ (Rabs (a - c) < 0.001 /\ Rabs (b - c) < 0.001)).
Proof.
  destruct (find_equilibrium_points_returns World fsolve w)
    as (l & w' & Hrun & _ & [Hroots Hfar] & _).
  exists l, w'. split; [ exact Hrun | split ].
  - eapply Forall_impl; [ | exact Hroots ]. cbv beta. intros x Hx.
    destruct (small_force_near_root x Hx) as [I | [I | I]];
      [ left | right; left | right; right ]; apply Rabs_def1; lra.
  - intros i j a b c Hij Hi Hj [Ha Hb].
    pose proof (far_pairs_nth l Hfar i j a b Hij Hi Hj) as Hab.
    unfold far in Hab. apply Rabs_def2 in Ha. apply Rabs_def2 in Hb.
    unfold Rabs in Hab. destruct (Rcase_abs (a - b)); lra.
Qed.

(** X8: the finder reports only positions the solver produced: each one is
    the first entry of an array [fsolve] returned for one of the seeds. *)
Theorem returned_positions_from_solver (w : World) :
  exists (l : list R) (w' : World),
    find_equilibrium_points fsolve w = (Returned l, w')
    /\ Forall (fun x => exists (x_guess : R) (w0 : World) (a : list R),
                   In x_guess [-2; 0; 2]
                   /\ fst (fsolve force x_guess w0) = Returned (x :: a)) l.
Proof.
  rewrite find_equilibrium_points_run.
  destruct (for_each_detail World fsolve [-2; 0; 2] [] w)
    as (more & -> & _ & Hfrom).
  cbn [app]. exists (sorted more), (solver_states World fsolve [-2; 0; 2] w).
  split; [ reflexivity | ].
  now apply (Permutation_Forall (Permutation_sym (sorted_perm more))).
Qed.

(** X9: every call of the finder calls the solver exactly once per seed, in
    the order -2, 0, 2, whether or not a call raises or its candidate is
    rejected: the state after the finder is the state after those three
    calls. *)
Theorem solver_called_once_per_seed (w : World) :
  snd (find_equilibrium_points fsolve w)
  = snd (fsolve force 2 (snd (fsolve force 0 (snd (fsolve force (-2) w))))).
Proof.
  rewrite find_equilibrium_points_run.
  destruct (for_each_detail World fsolve [-2; 0; 2] [] w) as (more & -> & _).
  reflexivity.
Qed.

(** X10: a position, once appended, is never removed by a later seed (the
    list after the loop extends the list before it); in particular a
    candidate of the first seed that passes the residual test is always
    reported. *)
Theorem first_seed_candidate_reported
  (x_eq : R) (a : list R) (w w1 : World) :
  fsolve force (-2) w = (Returned (x_eq :: a), w1) ->
  Rabs (force x_eq) < 1e-6 ->
  (exists (l : list R) (w' : World),
      find_equilibrium_points fsolve w = (Returned l, w') /\ In x_eq l)
  /\ (forall (guesses pts : list R) (w0 : World),
         exists (more : list R) (w' : World),
           for_each fsolve guesses pts w0 = (Returned (pts ++ more), w')).
Proof.
  intros Hs Hsmall. split.
  - rewrite find_equilibrium_points_run, for_each_cons.
    rewrite loop_body_run, try_block_run, Hs.
    rewrite (tested_appends [] x_eq Hsmall) by constructor.
    cbn [app].
    destruct (for_each_detail World fsolve [0; 2] [x_eq] w1) as (more & -> & _).
    exists (sorted ([x_eq] ++ more)), (solver_states World fsolve [0; 2] w1).
    split; [ reflexivity | ].
    apply (Permutation_in _ (Permutation_sym (sorted_perm _))). now left.
  - intros guesses pts w0.
    destruct (for_each_detail World fsolve guesses pts w0) as (more & -> & _).
    now exists more, (solver_states World fsolve guesses w0).
Qed.

(** X11: when the candidates of all three seeds pass the residual test and
    lie within 0.05 of one position [c] (the searches ended at the same
    root), the finder reports exactly one position: the first seed's
    candidate. *)
Theorem same_root_reported_once (c : R) :
  (forall (x_guess : R) (w : World),
      In x_guess [-2; 0; 2] ->
      exists (x_eq : R) (a : list R) (w' : World),
        fsolve force x_guess w = (Returned (x_eq :: a), w')
        /\ Rabs (force x_eq) < 1e-6
        /\ Rabs (x_eq - c) <= 0.05) ->
  forall w : World,
    exists (x_eq : R) (a : list R) (w' : World),
      find_equilibrium_points fsolve w = (Returned [x_eq], w')
      /\ fst (fsolve force (-2) w) = Returned (x_eq :: a).
Proof.
  intros Hsame w.
  assert (forall x y, Rabs (x - c) <= 0.05 -> Rabs (y - c) <= 0.05 ->
                      Rabs (y - x) <= 0.1) as Hclose.
  { intros x y Hx Hy. apply Rabs_le.
    unfold Rabs in Hx, Hy.
    destruct (Rcase_abs (x - c)), (Rcase_abs (y - c)); lra. }
  rewrite find_equilibrium_points_run, for_each_cons.
  destruct (Hsame (-2) w) as (x1 & a1 & w1 & Hs1 & Hf1 & Hc1); [ simpl; auto | ].
  rewrite loop_body_run, try_block_run, Hs1.
  rewrite (tested_appends [] x1 Hf1) by constructor.
  cbn [app]. rewrite for_each_cons.
  destruct (Hsame 0 w1) as (x2 & a2 & w2 & Hs2 & Hf2 & Hc2); [ simpl; auto | ].
  rewrite loop_body_run, try_block_run, Hs2.
  rewrite (tested_rejects [x1] x2 x1) by (simpl; auto).
  rewrite for_each_cons.
  destruct (Hsame 2 w2) as (x3 & a3 & w3 & Hs3 & Hf3 & Hc3); [ simpl; auto | ].
  rewrite loop_body_run, try_block_run, Hs3.
  rewrite (tested_rejects [x1] x3 x1) by (simpl; auto).
  exists x1, a1, w3. split; reflexivity.
Qed.

End FinderSoundness.

Lemma first_seed_candidate_reported_witness :
  table_fsolve force (-2) 0%nat = (Returned [-1.472997601], 1%nat)
  /\ Rabs (force (-1.472997601)) < 1e-6
  /\ exists (l : list R) (w' : nat),
      find_equilibrium_points table_fsolve 0%nat = (Returned l, w')
      /\ In (-1.472997601) l.
Proof.
  assert (table_fsolve force (-2) 0%nat = (Returned [-1.472997601], 1%nat)) as H
    by (unfold table_fsolve; eval_Rltb; reflexivity).
  assert (Rabs (force (-1.472997601)) < 1e-6) as Hsmall
    by (unfold force; apply Rabs_def1; lra).
  split; [ exact H | split; [ exact Hsmall | ] ].
  exact (proj1 (first_seed_candidate_reported nat table_fsolve
                  (-1.472997601) [] 0%nat 1%nat H Hsmall)).
Defined.

Lemma same_root_reported_once_witness :
  (forall (x_guess : R) (w : nat),
      In x_guess [-2; 0; 2] ->
      exists (x_eq : R) (a : list R) (w' : nat),
        single_root_fsolve force x_guess w = (Returned (x_eq :: a), w')
        /\ Rabs (force x_eq) < 1e-6
        /\ Rabs (x_eq - 0.126) <= 0.05)
  /\ exists (x_eq : R) (a : list R) (w' : nat),
      find_equilibrium_points single_root_fsolve 0%nat = (Returned [x_eq], w')
      /\ fst (single_root_fsolve force (-2) 0%nat) = Returned (x_eq :: a).
Proof.
  assert (forall (x_guess : R) (w : nat),
      In x_guess [-2; 0; 2] ->
      exists (x_eq : R) (a : list R) (w' : nat),
        single_root_fsolve force x_guess w = (Returned (x_eq :: a), w')
        /\ Rabs (force x_eq) < 1e-6
        /\ Rabs (x_eq - 0.126) <= 0.05) as H.
  { intros x_guess w _. exists 0.126000193, [], (S w).
    split; [ reflexivity | split ].
    - unfold force. apply Rabs_def1; lra.
    - apply Rabs_le. lra. }
  split; [ exact H | ].
  exact (same_root_reported_once nat single_root_fsolve 0.126 H 0%nat).
Defined.

Lemma linspace_length (start stop : R) (num : nat) :
  List.length (linspace start stop num) = num.
Proof. unfold linspace. now rewrite length_map, length_seq. Qed.

Lemma linspace_hd (start stop : R) (n : nat) :
  hd 0 (linspace start stop (S n)) = start.
Proof. unfold linspace. cbn [seq map hd]. cbn [INR]. lra. Qed.

Lemma linspace_last (start stop : R) (n : nat) :
  last (linspace start stop (S (S n))) 0 = stop.
Proof.
  unfold linspace. rewrite seq_S, map_app. cbn [map]. rewrite last_last.
  cbn [plus]. replace (S (S n) - 1)%nat with (S n) by lia.
  assert (INR (S n) <> 0) as Hn by (apply not_0_INR; lia).
  field. exact Hn.
Qed.

Lemma x_grid_ends :
  List.length x_grid = 1000%nat /\ hd 0 x_grid = -2.5 /\ last x_grid 0 = 2.5.
Proof.
  unfold x_grid. split; [ apply linspace_length | split ].
  - apply linspace_hd.
  - apply linspace_last.
Qed.
Lemma potential_energy_near (c x : R) :
  -2 <= c <= 2 -> Rabs (x - c) < 0.001 ->
  Rabs (potential_energy x - (potential_energy c - force c * (x - c))) < 0.00003.
Proof.
  intros Hc Hx. replace x with (c + (x - c)) at 1 by ring.
  rewrite potential_energy_expand.
  apply Rabs_def2 in Hx. set (h := x - c) in *.
  assert (0 <= h * h < 0.000001) as Hhh by nra.
  assert (-5 < 6 * c * c - 4 + 4 * c * h + h * h < 21) as Hq by nra.
  apply Rabs_def1; nra.
Qed.

Lemma potential_energy_left (x : R) :
  -1.474 < x < -1.472 -> -5.45 < potential_energy x < -5.44.
Proof.
  intros Hx.
  assert (Rabs (x - -1.473) < 0.001) as Hn by (apply Rabs_def1; lra).
  assert (-2 <= -1.473 <= 2) as Hc by lra.
  pose proof (potential_energy_near (-1.473) x Hc Hn) as H.
  apply Rabs_def2 in H. apply Rabs_def2 in Hn.
  assert (-5.4442 < potential_energy (-1.473) < -5.4441) as HU
    by (unfold potential_energy; lra).
  assert (-0.001 < force (-1.473) < 0.001) as HF by (unfold force; lra).
  nra.
Qed.

Lemma potential_energy_middle (x : R) :
  0.125 < x < 0.127 -> 0.06 < potential_energy x < 0.07.
Proof.
  intros Hx.
  assert (Rabs (x - 0.126) < 0.001) as Hn by (apply Rabs_def1; lra).
  assert (-2 <= 0.126 <= 2) as Hc by lra.
  pose proof (potential_energy_near 0.126 x Hc Hn) as H.
  apply Rabs_def2 in H. apply Rabs_def2 in Hn.
  assert (0.0627 < potential_energy 0.126 < 0.0628) as HU
    by (unfold potential_energy; lra).
  assert (-0.001 < force 0.126 < 0.001) as HF by (unfold force; lra).
  nra.
Qed.

Lemma potential_energy_right (x : R) :
  1.346 < x < 1.348 -> -2.62 < potential_energy x < -2.61.
Proof.
  intros Hx.
  assert (Rabs (x - 1.347) < 0.001) as Hn by (apply Rabs_def1; lra).
  assert (-2 <= 1.347 <= 2) as Hc by lra.
  pose proof (potential_energy_near 1.347 x Hc Hn) as H.
  apply Rabs_def2 in H. apply Rabs_def2 in Hn.
  assert (-2.6186 < potential_energy 1.347 < -2.6185) as HU
    by (unfold potential_energy; lra).
  assert (-0.001 < force 1.347 < 0.001) as HF by (unfold force; lra).
  nra.
Qed.

Lemma flat_map_length_const {A B : Type} (f : A -> list B) (n : nat) (l : list A) :
  (forall a, In a l -> List.length (f a) = n) ->
  List.length (flat_map f l) = (List.length l * n)%nat.
Proof.
  induction l as [| a l IH]; intros H; simpl; [ reflexivity | ].
  rewrite length_app, (H a) by now left.
  rewrite IH; [ lia | ]. intros b Hb. apply H. now right.
Qed.

Section WindowFacts.

Local Open Scope string_scope.

Variable format_2f : R -> string.

Lemma mark_ball_stable (x : R) :
  fst (classify_equilibrium x) = "stable" ->
  mark_ball x = ball_marker "stable" x.
Proof.
  unfold mark_ball. destruct (classify_equilibrium x) as [label d2U].
  cbn [fst]. now intros ->.
Qed.

Lemma mark_ball_unstable (x : R) :
  fst (classify_equilibrium x) = "unstable" ->
  mark_ball x = ball_marker "unstable" x.
Proof.
  unfold mark_ball. destruct (classify_equilibrium x) as [label d2U].
  cbn [fst]. now intros ->.
Qed.

Lemma label_outer (x : R) :
  x < -1 \/ 1 < x -> fst (classify_equilibrium x) = "stable".
Proof. intros H. now destruct (classify_outer x H) as [-> _]. Qed.

Lemma label_inner (x : R) :
  -0.5 < x < 0.5 -> fst (classify_equilibrium x) = "unstable".
Proof. intros H. now destruct (classify_inner x H) as [-> _]. Qed.

Lemma point_marks_in_view (x : R) :
  Rabs (force x) < 1e-6 ->
  (List.length (mark_potential format_2f x) = 1%nat
   /\ List.length (mark_force format_2f x) = 2%nat
   /\ List.length (mark_ball x) = 2%nat)
  /\ Forall in_view (mark_potential format_2f x)
  /\ Forall in_view (mark_force format_2f x)
  /\ Forall in_view (mark_ball x).
Proof.
  intros Hsmall.
  destruct x_grid_ends as (_ & Hhd & Hlast).
  assert (-1.474 < x < 1.348) as Hx
    by (destruct (small_force_near_root x Hsmall) as [I | [I | I]]; lra).
  assert (Forall in_view (mark_ball x) /\ List.length (mark_ball x) = 2%nat)
    as [Hball Hlen].
  { destruct (small_force_near_root x Hsmall) as [I | [I | I]].
    - pose proof (potential_energy_left x I) as HU.
      rewrite (mark_ball_stable x) by (apply label_outer; lra).
      split; [ | reflexivity ].
      unfold ball_marker. cbn [String.eqb Ascii.eqb Bool.eqb].
      repeat constructor; cbn [in_view fst snd ax3_ylim]; rewrite ?Hhd, ?Hlast; lra.
    - pose proof (potential_energy_middle x I) as HU.
      rewrite (mark_ball_unstable x) by (apply label_inner; lra).
      split; [ | reflexivity ].
      unfold ball_marker. cbn [String.eqb Ascii.eqb Bool.eqb].
      repeat constructor; cbn [in_view fst snd ax3_ylim]; rewrite ?Hhd, ?Hlast; lra.
    - pose proof (potential_energy_right x I) as HU.
      rewrite (mark_ball_stable x) by (apply label_outer; lra).
      split; [ | reflexivity ].
      unfold ball_marker. cbn [String.eqb Ascii.eqb Bool.eqb].
      repeat constructor; cbn [in_view fst snd ax3_ylim]; rewrite ?Hhd, ?Hlast; lra. }
  split; [ | split; [ | split; [ | exact Hball ] ] ].
  - unfold mark_potential, mark_force.
    destruct (classify_equilibrium x) as [label d2U]. auto.
  - unfold mark_potential. destruct (classify_equilibrium x) as [label d2U].
    unfold potential_marker. repeat constructor; cbn [in_view]; rewrite ?Hhd, ?Hlast; lra.
  - unfold mark_force. destruct (classify_equilibrium x) as [label d2U].
    unfold force_marker. repeat constructor; cbn [in_view fst snd]; rewrite ?Hhd, ?Hlast; lra.
Qed.

Variable World : Type.
Variable fsolve : (R -> R) -> R -> M World (list R).

(** X12: for every solver, [create_visualization] draws five marks per
    reported position, all inside the plotted window: every marker, arrow
    tip and ball lies within the sampled x-range (-2.5 to 2.5), and in the
    third panel every ball and arrow tip lies within the y-limits -6 and 3. *)
Theorem marks_in_view (w : World) :
  exists (marks : list artist) (eq_points : list R) (w' : World),
    create_visualization format_2f World fsolve w
    = (Returned (marks, eq_points), w')
    /\ List.length marks = (5 * List.length eq_points)%nat
    /\ Forall in_view marks.
Proof.
  destruct (find_equilibrium_points_returns World fsolve w)
    as (eq_points & w' & Hrun & _ & [Hroots _] & _).
  eexists _, eq_points, w'. split.
  { unfold create_visualization, bind. rewrite Hrun. reflexivity. }
  rewrite Forall_forall in Hroots.
  split.
  - rewrite !length_app.
    rewrite (flat_map_length_const (mark_potential format_2f) 1),
            (flat_map_length_const (mark_force format_2f) 2),
            (flat_map_length_const mark_ball 2); [ lia | | | ];
      intros a Ha; apply (point_marks_in_view a (Hroots a Ha)).
  - rewrite !Forall_app. repeat split; apply Forall_flat_map, Forall_forall;
      intros a Ha; apply (point_marks_in_view a (Hroots a Ha)).
Qed.

(** X13: in the third panel the annotation text of the equilibrium left of
    the origin is anchored below the y-range: at [U_eq - 2], about -7.44,
    under the lower limit -6 of [set_ylim]; the text anchors of the other
    reported positions lie inside the limits. *)
Theorem left_annotation_text_below_view (w : World) :
  exists (eq_points : list R) (w' : World),
    find_equilibrium_points fsolve w = (Returned eq_points, w')
    /\ Forall (fun x_eq =>
         exists (ball : artist) (text : string) (xy : R * R) (ty : R)
                (box : option bbox) (arrow : arrowprops),
           mark_ball x_eq
           = [ ball; Annotate ax3 text xy (x_eq, ty) 9 "center" box arrow ]
           /\ (x_eq < 0 -> -7.45 < ty < -7.44 /\ ty < fst ax3_ylim)
           /\ (0 < x_eq -> fst ax3_ylim < ty < snd ax3_ylim)) eq_points.
Proof.
  destruct (find_equilibrium_points_returns World fsolve w)
    as (eq_points & w' & Hrun & _ & [Hroots _] & _).
  exists eq_points, w'. split; [ exact Hrun | ].
  eapply Forall_impl; [ | exact Hroots ]. cbv beta. intros x Hsmall.
  destruct (small_force_near_root x Hsmall) as [I | [I | I]].
  - pose proof (potential_energy_left x I) as HU.
    rewrite (mark_ball_stable x) by (apply label_outer; lra).
    unfold ball_marker. cbn [String.eqb Ascii.eqb Bool.eqb].
    do 6 eexists. split; [ reflexivity | ]. cbn [fst snd ax3_ylim]. split; intros; lra.
  - pose proof (potential_energy_middle x I) as HU.
    rewrite (mark_ball_unstable x) by (apply label_inner; lra).
    unfold ball_marker. cbn [String.eqb Ascii.eqb Bool.eqb].
    do 6 eexists. split; [ reflexivity | ]. cbn [fst snd ax3_ylim]. split; intros; lra.
  - pose proof (potential_energy_right x I) as HU.
    rewrite (mark_ball_stable x) by (apply label_outer; lra).
    unfold ball_marker. cbn [String.eqb Ascii.eqb Bool.eqb].
    do 6 eexists. split; [ reflexivity | ]. cbn [fst snd ax3_ylim]. split; intros; lra.
Qed.

End WindowFacts.

(** ** The printed report *)

Lemma str_app_assoc (a b c : string) :
  ((a ++ b) ++ c = a ++ (b ++ c))%string.
Proof. induction a as [| x a IH]; simpl; [ reflexivity | now rewrite IH ]. Qed.

Section ReportFacts.

Local Open Scope string_scope.

Variable format_4f : R -> string.

(** X14: a table row of [print_analysis] is made of four fields padded to
    15 characters and joined by single spaces: it is 63 characters long,
    like the header row, exactly when each of the three formatted numbers
    has at most 15 characters (a longer number shifts the columns); the
    Stability field holds the label in upper case. *)
Theorem analysis_row_alignment (x_eq : R) :
  let n1 := len (format_4f x_eq) in
  let n2 := len (format_4f (potential_energy x_eq)) in
  let n3 := len (format_4f (second_derivative x_eq)) in
  let field := ljust (upper (fst (classify_equilibrium x_eq))) 15 in
  len (analysis_row format_4f x_eq)
  = (Nat.max n1 15 + Nat.max n2 15 + Nat.max n3 15 + 18)%nat
  /\ (len (analysis_row format_4f x_eq) = 63%nat
      <-> (n1 <= 15 /\ n2 <= 15 /\ n3 <= 15)%nat)
  /\ len (nth 6 header_lines "") = 63%nat
  /\ len field = 15%nat
  /\ exists before after : string,
      analysis_row format_4f x_eq = before ++ field ++ after
      /\ len before = (Nat.max n1 15 + Nat.max n2 15 + 2)%nat.
Proof.
  cbv zeta.
  assert (len (ljust (upper (fst (classify_equilibrium x_eq))) 15) = 15%nat)
    as Hfield.
  { rewrite len_ljust, len_upper.
    destruct (classify_equilibrium_cases x_eq) as [[_ ->] | [[_ ->] | [_ ->]]];
      reflexivity. }
  assert (len (analysis_row format_4f x_eq)
          = (Nat.max (len (format_4f x_eq)) 15
             + Nat.max (len (format_4f (potential_energy x_eq))) 15
             + Nat.max (len (format_4f (second_derivative x_eq))) 15 + 18)%nat)
    as Hlen.
  { revert Hfield. unfold analysis_row.
    destruct (classify_equilibrium_cases x_eq) as [[_ ->] | [[_ ->] | [_ ->]]];
      cbn [fst]; intros Hfield;
      rewrite !len_app, Hfield, !len_ljust; cbn [len is_continuation]; simpl; lia. }
  split; [ exact Hlen | ].
  split; [ rewrite Hlen; lia | ].
  split; [ reflexivity | ].
  split; [ exact Hfield | ].
  exists (ljust (format_4f x_eq) 15 ++ " "
          ++ ljust (format_4f (potential_energy x_eq)) 15 ++ " "),
         (" " ++ ljust (format_4f (second_derivative x_eq)) 15).
  split.
  - unfold analysis_row.
    destruct (classify_equilibrium_cases x_eq) as [[_ ->] | [[_ ->] | [_ ->]]];
      cbn [fst]; now rewrite !str_app_assoc.
  - rewrite !len_app, !len_ljust. simpl. lia.
Qed.

End ReportFacts.

Lemma bind_returned {W A B : Type} (c : M W A) (k : A -> M W B)
  (w w' : W) (a : A) :
  c w = (Returned a, w') -> bind c k w = k a w'.
Proof. intros H. unfold bind. now rewrite H. Qed.

Lemma bind_raised {W A B : Type} (c : M W A) (k : A -> M W B)
  (w w' : W) (e : exn) :
  c w = (Raised e, w') -> bind c k w = (Raised e, w').
Proof. intros H. unfold bind. now rewrite H. Qed.

Section TracedFacts.

Local Open Scope string_scope.

Variable solver : (R -> R) -> R -> list event -> result (list R).
Variable saver : string -> R -> string -> list event -> result unit.
Variable shower : list event -> result unit.
Variable format_2f : R -> string.
Variable format_4f : R -> string.

Lemma print_all_traced (lines : list string) (log : list event) :
  print_all (list event) traced_print lines log
  = (Returned tt, (log ++ map Printed lines)%list).
Proof.
  revert log. induction lines as [| s rest IH]; intros log.
  - simpl. now rewrite app_nil_r.
  - cbn [print_all]. rewrite (bind_returned _ _ log (log ++ [Printed s])%list tt)
      by reflexivity.
    rewrite IH. simpl. now rewrite <- app_assoc.
Qed.

Lemma finder_traced (log : list event) :
  exists eq_points : list R,
    find_equilibrium_points (traced_fsolve solver) log
    = (Returned eq_points, (log ++ solver_calls)%list).
Proof.
  rewrite find_equilibrium_points_run.
  destruct (for_each_detail (list event) (traced_fsolve solver) [-2; 0; 2] [] log)
    as (more & -> & _).
  exists (sorted more). cbn [app]. unfold solver_states, solver_calls.
  cbn [fold_left traced_fsolve snd].
  now rewrite <- !app_assoc.
Qed.

Lemma create_visualization_traced (log : list event) :
  exists (marks : list artist) (eq_points : list R),
    find_equilibrium_points (traced_fsolve solver) log
    = (Returned eq_points, (log ++ solver_calls)%list)
    /\ create_visualization format_2f (list event) (traced_fsolve solver) log
       = (Returned (marks, eq_points), (log ++ solver_calls)%list).
Proof.
  destruct (finder_traced log) as (eq_points & Hrun).
  eexists _, eq_points. split; [ exact Hrun | ].
  unfold create_visualization.
  rewrite (bind_returned _ _ _ _ _ Hrun). reflexivity.
Qed.

End TracedFacts.

Section TracedMain.

Local Open Scope string_scope.

Variable solver : (R -> R) -> R -> list event -> result (list R).
Variable saver : string -> R -> string -> list event -> result unit.
Variable shower : list event -> result unit.
Variable format_2f : R -> string.
Variable format_4f : R -> string.

Lemma main_runs_to_save (k : M (list event) unit) :
  exists eq_points eq_points' : list R,
    fst (find_equilibrium_points (traced_fsolve solver)
           (map Printed banner_lines)) = Returned eq_points
    /\ fst (find_equilibrium_points (traced_fsolve solver)
              (map Printed banner_lines ++ solver_calls
               ++ map Printed (print_analysis_lines format_4f eq_points))%list)
       = Returned eq_points'
    /\ (traced_print (newline ++ str_mul "=" 70) ;;
        traced_print "PHYSICS LESSON: STABLE AND UNSTABLE EQUILIBRIUM" ;;
        traced_print (str_mul "=" 70) ;;
        eq_points <- find_equilibrium_points (traced_fsolve solver) ;;
        print_analysis (list event) traced_print format_4f eq_points ;;
        fig_and_points <- create_visualization format_2f (list event)
                            (traced_fsolve solver) ;;
        k) []
       = k (log_before_save format_4f eq_points).
Proof.
  destruct (finder_traced solver (map Printed banner_lines)) as (eq1 & Hrun1).
  destruct (create_visualization_traced solver format_2f
              (map Printed banner_lines ++ solver_calls
               ++ map Printed (print_analysis_lines format_4f eq1))%list)
    as (marks & eq2 & Hfind2 & Hrun2).
  exists eq1, eq2. split; [ now rewrite Hrun1 | ].
  split; [ now rewrite Hfind2 | ].
  rewrite (bind_returned _ _ [] [Printed (newline ++ str_mul "=" 70)] tt)
    by reflexivity.
  rewrite (bind_returned _ _ _ (firstn 2 (map Printed banner_lines)) tt)
    by reflexivity.
  rewrite (bind_returned _ _ _ (map Printed banner_lines) tt) by reflexivity.
  rewrite (bind_returned _ _ _ _ _ Hrun1).
  unfold print_analysis.
  rewrite (bind_returned _ _ _ _ _ (print_all_traced _ _)).
  rewrite <- app_assoc.
  rewrite (bind_returned _ _ _ _ _ Hrun2).
  unfold log_before_save. now rewrite <- !app_assoc.
Qed.


(** X16: when [savefig] raises, [main] raises that exception right there:
    the report has been printed and the finder run twice, and [savefig] is
    the last external call, so neither the "saved" line nor [show] nor the
    closing lines follow. *)
Theorem main_stops_when_savefig_raises (e : exn) :
  (forall log, saver "equilibrium_lesson_output.png" 300 "tight" log
               = Raised e) ->
  exists (eq_points : list R),
    fst (find_equilibrium_points (traced_fsolve solver)
           (map Printed banner_lines)) = Returned eq_points
    /\ traced_main solver saver shower format_2f format_4f []
       = (Raised e,
          (map Printed banner_lines
           ++ solver_calls
           ++ map Printed (print_analysis_lines format_4f eq_points)
           ++ solver_calls
           ++ [ save_call ])%list).
Proof.
  intros Hsave.
  destruct (main_runs_to_save (save_and_show saver shower))
    as (eq_points & eq_points' & Hrun & _ & Hmain).
  exists eq_points. split; [ exact Hrun | ].
  change (traced_main solver saver shower format_2f format_4f [])
    with ((traced_print (newline ++ str_mul "=" 70) ;;
           traced_print "PHYSICS LESSON: STABLE AND UNSTABLE EQUILIBRIUM" ;;
           traced_print (str_mul "=" 70) ;;
           eq_points <- find_equilibrium_points (traced_fsolve solver) ;;
           print_analysis (list event) traced_print format_4f eq_points ;;
           fig_and_points <- create_visualization format_2f (list event)
                               (traced_fsolve solver) ;;
           save_and_show saver shower) []).
  rewrite Hmain. unfold save_and_show.
  unfold bind at 1. unfold traced_savefig at 1. rewrite Hsave.
  unfold log_before_save. now rewrite <- !app_assoc.
Qed.

End TracedMain.


Lemma main_stops_when_savefig_raises_witness :
  (forall log, saver_denied "equilibrium_lesson_output.png" 300 "tight" log
               = Raised "PermissionError"%string)
  /\ exists (eq_points : list R),
      fst (find_equilibrium_points (traced_fsolve warming_solver)
             (map Printed banner_lines)) = Returned eq_points
      /\ traced_main warming_solver saver_denied shower_ok
           (fun _ => "0.00"%string) (fun _ => "0.0000"%string) []
         = (Raised "PermissionError"%string,
            (map Printed banner_lines
             ++ solver_calls
             ++ map Printed
                  (print_analysis_lines (fun _ => "0.0000"%string) eq_points)
             ++ solver_calls
             ++ [ save_call ])%list).
Proof.
  assert (forall log,
             saver_denied "equilibrium_lesson_output.png" 300 "tight" log
             = Raised "PermissionError"%string) as Hsave by reflexivity.
  split; [ exact Hsave | ].
  exact (main_stops_when_savefig_raises warming_solver saver_denied shower_ok
           (fun _ => "0.00"%string) (fun _ => "0.0000"%string)
           "PermissionError"%string Hsave).
Defined.

(** X17: the potential energy is bounded below: its least value over all
    positions is taken at the left equilibrium only, and lies between -5.45
    and -5.44, above the lower limit -6 of the third panel. *)
Theorem potential_energy_global_minimum :
  (forall x : R,
      x <> root_left_of_force ->
      potential_energy root_left_of_force < potential_energy x)
  /\ -5.45 < potential_energy root_left_of_force < -5.44
  /\ (forall x : R, fst ax3_ylim < potential_energy x).
Proof.
  destruct root_left_of_force_spec as [Hr Z].
  set (r := root_left_of_force) in *.
  assert (-1.474 < r < -1.472) as Hr'.
  { destruct (small_force_near_root r (zero_force_small r Z)) as [I | [I | I]];
      lra. }
  pose proof (potential_energy_left r Hr') as HU.
  assert (forall x : R, x <> r -> potential_energy r < potential_energy x) as Hmin.
  { intros x Hne. replace x with (r + (x - r)) by ring.
    rewrite potential_energy_expand, Z.
    set (h := x - r). assert (h <> 0) as Hh by (unfold h; lra).
    assert (0 < h * h) as Hhh by nra.
    assert (0 < 6 * r * r - 4 + 4 * r * h + h * h) as Hq.
    { replace (6 * r * r - 4 + 4 * r * h + h * h)
        with ((h + 2 * r) * (h + 2 * r) + (2 * (r * r) - 4)) by ring.
      assert (2.1 < r * r) as Hrr by nra.
      pose proof (Rle_0_sqr (h + 2 * r)) as Hsq. unfold Rsqr in Hsq. lra. }
    pose proof (Rmult_lt_0_compat _ _ Hhh Hq). lra. }
  split; [ exact Hmin | split; [ exact HU | ] ].
  intros x. cbn [fst ax3_ylim].
  destruct (Req_dec x r) as [-> | Hne]; [ lra | ].
  specialize (Hmin x Hne). lra.
Qed.

Section Threshold.

Variable World : Type.
Variable fsolve : (R -> R) -> R -> M World (list R).

(** X18: both acceptance tests are strict.  A candidate whose residual is
    1e-6 or more, or that is 0.1 or less away from a position already in
    the list, is rejected: in particular one exactly on a threshold. *)
Theorem candidate_on_threshold_rejected
  (pts : list R) (x_guess : R) (w : World)
  (x_eq : R) (a : list R) (w' : World) (y : R) :
  fsolve force x_guess w = (Returned (x_eq :: a), w') ->
  Rabs (force x_eq) >= 1e-6 \/ (In y pts /\ Rabs (x_eq - y) <= 0.1) ->
  loop_body fsolve pts x_guess w = (Returned pts, w').
Proof.
  intros Hs Hbad. rewrite loop_body_run, try_block_run, Hs.
  destruct Hbad as [Hbig | [Hin Hclose]].
  - unfold tested. rewrite (Rltb_nlt (Rabs (force x_eq)) 1e-6) by lra.
    now rewrite andb_false_r.
  - now rewrite (tested_rejects pts x_eq y Hin Hclose).
Qed.

End Threshold.

Lemma candidate_on_threshold_rejected_witness :
  table_fsolve force 0 1%nat = (Returned [0.126000193], 2%nat)
  /\ (Rabs (force 0.126000193) >= 1e-6
      \/ (In 0.026000193 [0.026000193]
          /\ Rabs (0.126000193 - 0.026000193) <= 0.1))
  /\ loop_body table_fsolve [0.026000193] 0 1%nat
     = (Returned [0.026000193], 2%nat).
Proof.
  assert (table_fsolve force 0 1%nat = (Returned [0.126000193], 2%nat)) as H
    by (unfold table_fsolve; eval_Rltb; reflexivity).
  assert (Rabs (force 0.126000193) >= 1e-6
          \/ (In 0.026000193 [0.026000193]
              /\ Rabs (0.126000193 - 0.026000193) <= 0.1)) as Hbad.
  { right. split; [ now left | ]. apply Rabs_le. lra. }
  split; [ exact H | split; [ exact Hbad | ] ].
  exact (candidate_on_threshold_rejected nat table_fsolve [0.026000193] 0 1%nat
           0.126000193 [] 2%nat 0.026000193 H Hbad).
Defined.

Section Presentation.

Local Open Scope string_scope.

Variable format_2f : R -> string.
Variable format_4f : R -> string.
Variable World : Type.
Variable fsolve : (R -> R) -> R -> M World (list R).

Lemma classify_outer_pair (x : R) :
  x < -1 \/ 1 < x ->
  classify_equilibrium x = ("stable", second_derivative x).
Proof. intros H. now destruct (classify_outer x H) as [-> _]. Qed.

Lemma classify_inner_pair (x : R) :
  -0.5 < x < 0.5 ->
  classify_equilibrium x = ("unstable", second_derivative x).
Proof. intros H. now destruct (classify_inner x H) as [-> _]. Qed.

(** X19: whatever the solver does, a reported position is shown in one of
    two ways.  Outside [-1, 1] it is "stable": a green 'v' marker with the
    legend "Stable: x=..." in the figure and the field "STABLE" in the
    report.  Inside (-0.5, 0.5) it is "unstable": a red '^' marker with
    the legend "Unstable: x=..." and the field "UNSTABLE". *)
Theorem reported_positions_presentation (w : World) :
  exists (l : list R) (w' : World),
    find_equilibrium_points fsolve w = (Returned l, w')
    /\ Forall (fun x =>
         ((x < -1 \/ 1 < x)
          /\ mark_potential format_2f x
             = [ Plot ax1 x (potential_energy x) "v" "green" 15
                      (Some ("Stable: x=" ++ format_2f x)) ]
          /\ analysis_row format_4f x
             = ljust (format_4f x) 15 ++ " "
               ++ ljust (format_4f (potential_energy x)) 15 ++ " "
               ++ "STABLE         " ++ " "
               ++ ljust (format_4f (second_derivative x)) 15)
         \/ (-0.5 < x < 0.5
             /\ mark_potential format_2f x
                = [ Plot ax1 x (potential_energy x) "^" "red" 15
                         (Some ("Unstable: x=" ++ format_2f x)) ]
             /\ analysis_row format_4f x
                = ljust (format_4f x) 15 ++ " "
                  ++ ljust (format_4f (potential_energy x)) 15 ++ " "
                  ++ "UNSTABLE       " ++ " "
                  ++ ljust (format_4f (second_derivative x)) 15)) l.
Proof.
  destruct (find_equilibrium_points_returns World fsolve w)
    as (l & w' & Hrun & _ & [Hroots _] & _).
  exists l, w'. split; [ exact Hrun | ].
  eapply Forall_impl; [ | exact Hroots ]. cbv beta. intros x Hsmall.
  assert ((x < -1 \/ 1 < x) \/ -0.5 < x < 0.5) as [Hout | Hin]
    by (destruct (small_force_near_root x Hsmall) as [I | [I | I]]; lra).
  - left. split; [ exact Hout | ].
    unfold mark_potential, analysis_row.
    rewrite (classify_outer_pair x Hout). split; reflexivity.
  - right. split; [ exact Hin | ].
    unfold mark_potential, analysis_row.
    rewrite (classify_inner_pair x Hin). split; reflexivity.
Qed.

End Presentation.

(** * The scenario, the float classifier and the non-stable marks *)

Section Scenario.

Variable World : Type.
Variable fsolve : (R -> R) -> R -> M World (list R).




End Scenario.


(** ** classify_equilibrium on floats *)

Set Warnings "-inexact-float".



Section NonStablePoints.

Local Open Scope string_scope.

Variable format_2f : R -> string.
Variable World : Type.
Variable fsolve : (R -> R) -> R -> M World (list R).


End NonStablePoints.
